(** * quant-trading-skill: the BM25 ranking engine and the domain search

    A shallow embedding of [internal/bm25/bm25.go] (package [bm25]) and of the
    search package ([DetectDomain], [Search], [loadCSV]), followed by the
    properties of the specification that concern them.

    Conventions of the embedding.
    - A Go [string] is a byte sequence: Rocq's [string] (a list of [ascii]).
    - A Go [map] is a [gmap]; a [range] over a map visits the keys in an order
      the language leaves open, so the visiting order is an explicit argument.
    - A [float64] is a real number: rounding, overflow and underflow are not
      modelled, and what is proved of a score is proved of the real number the
      formula denotes.  A division whose divisor is zero (in Go the result is
      an infinity, or NaN for 0/0) is reported as [DivByZero].
    - A Go [int] is a [nat] where the code only counts and a [Z] where the
      caller may pass a negative number. *)

From Stdlib Require Import Reals Lra Lia ZArith String Ascii List Permutation Sorted.
From stdpp Require Import gmap strings list fin_maps.

Local Open Scope string_scope.
Local Open Scope list_scope.

(** ** Bytes and the classes the tokenizer's regular expression uses *)

Module Byte.

Definition between (lo hi : nat) (c : ascii) : bool :=
  (lo <=? nat_of_ascii c)%nat && (nat_of_ascii c <=? hi)%nat.

(** ['A'..'Z'] *)
Definition is_upper (c : ascii) : bool := between 65 90 c.
(** ['a'..'z'] *)
Definition is_lower (c : ascii) : bool := between 97 122 c.
(** ['0'..'9'] *)
Definition is_digit (c : ascii) : bool := between 48 57 c.

(** RE2's [\w]: [[0-9A-Za-z_]]. *)
Definition is_word (c : ascii) : bool :=
  is_digit c || is_upper c || is_lower c || (nat_of_ascii c =? 95)%nat.

(** RE2's [\s]: [[\t\n\f\r ]]. *)
Definition is_re_space (c : ascii) : bool :=
  let n := nat_of_ascii c in
  (n =? 9)%nat || (n =? 10)%nat || (n =? 12)%nat || (n =? 13)%nat || (n =? 32)%nat.

(** The white space of [strings.Fields] on ASCII text:
    [asciiSpace = {'\t', '\n', '\v', '\f', '\r', ' '}]. *)
Definition asciiSpace (c : ascii) : bool :=
  let n := nat_of_ascii c in
  ((9 <=? n)%nat && (n <=? 13)%nat) || (n =? 32)%nat.

(** The byte of a lower-cased ASCII letter. *)
Definition to_lower (c : ascii) : ascii :=
  if is_upper c then ascii_of_nat (nat_of_ascii c + 32) else c.

End Byte.

(** ** Package [strings] *)

Module Strings.

(** The two runes outside ASCII whose lower case is an ASCII letter, by their
    UTF-8 bytes: U+0130 (C4 B0) lowers to [i] and U+212A, the Kelvin sign
    (E2 84 AA), to [k].  C4 and E2 are lead bytes, so that wherever these
    bytes stand in a string Go decodes them as these runes. *)
Definition dotted_I (c1 c2 : ascii) : bool :=
  Ascii.eqb c1 "196" && Ascii.eqb c2 "176".

Definition kelvin (c1 c2 c3 : ascii) : bool :=
  Ascii.eqb c1 "226" && Ascii.eqb c2 "132" && Ascii.eqb c3 "170".

(** [strings.ToLower].  The ASCII letters ['A'..'Z'] are lowered, and so are
    the two runes above.  Of every other rune outside ASCII, and of every
    byte that is not valid UTF-8 (Go writes U+FFFD for it), Go's result has
    bytes [>= 0x80] only; this model leaves the bytes of the text in their
    place, so that it has the ASCII bytes of Go's result, in the same order
    and with bytes [>= 0x80] between the same ones, but not always the same
    bytes [>= 0x80]. *)
Fixpoint ToLower (s : string) : string :=
  match s with
  | EmptyString => EmptyString
  | String c s1 =>
      match s1 with
      | String c2 s2 =>
          if dotted_I c c2 then String "i" (ToLower s2)
          else
            match s2 with
            | String c3 s3 =>
                if kelvin c c2 c3 then String "k" (ToLower s3)
                else String (Byte.to_lower c) (ToLower s1)
            | EmptyString => String (Byte.to_lower c) (ToLower s1)
            end
      | EmptyString => String (Byte.to_lower c) (ToLower s1)
      end
  end.

(** [strings.HasPrefix]. *)
Fixpoint HasPrefix (s prefix : string) : bool :=
  match prefix, s with
  | EmptyString, _ => true
  | String _ _, EmptyString => false
  | String p prefix', String c s' =>
      if Ascii.eqb c p then HasPrefix s' prefix' else false
  end.

(** [strings.Contains]: [substr] occurs somewhere within [s]. *)
Fixpoint Contains (s substr : string) : bool :=
  HasPrefix s substr ||
  match s with
  | EmptyString => false
  | String _ s' => Contains s' substr
  end.

(** [strings.Fields]: the maximal runs of bytes that are not white space, in
    order.  [w] is the field being read. *)
Fixpoint fields_from (w s : string) : list string :=
  match s with
  | EmptyString => if String.eqb w "" then [] else [w]
  | String c s' =>
      if Byte.asciiSpace c
      then (if String.eqb w "" then fields_from "" s' else w :: fields_from "" s')
      else fields_from (w ++ String c "")%string s'
  end.

Definition Fields (s : string) : list string := fields_from "" s.

(** [strings.Join]. *)
Fixpoint Join (elems : list string) (sep : string) : string :=
  match elems with
  | [] => ""
  | [e] => e
  | e :: rest => (e ++ sep ++ Join rest sep)%string
  end.

End Strings.

(** ** Run-time faults

    [IndexOutOfRange] and [MakeSliceCap] are Go panics.  [DivByZero x] marks a
    float division of [x] by zero, whose result is NaN (for [x = 0]) or an
    infinity: the run has left the real numbers and is not followed further. *)

Inductive fault : Type :=
  | IndexOutOfRange
  | MakeSliceCap
  | DivByZero (dividend : R).

Definition exec (A : Type) : Type := (fault + A)%type.

#[global] Instance exec_ret : MRet exec := fun A x => inr x.
#[global] Instance exec_bind : MBind exec := fun A B f m =>
  match m with
  | inl e => inl e
  | inr x => f x
  end.

Definition raise {A : Type} (e : fault) : exec A := inl e.

(** [x / y] on [float64], as the real quotient; a zero divisor is reported
    with the dividend ([DivByZero 0] is Go's NaN, the others its infinities).
    Rounding, overflow and underflow of the quotient are not modelled. *)
Definition fdiv (x y : R) : exec R :=
  if Req_dec_T y 0 then raise (DivByZero x) else mret (x / y)%R.

(** A [for] loop over a slice whose body may fault, threading the state. *)
Fixpoint foldM {A S : Type} (body : S -> A -> exec S) (s : S) (l : list A) : exec S :=
  match l with
  | [] => mret s
  | x :: l' => s' ← body s x; foldM body s' l'
  end.

(** ** Package [bm25] *)

Module bm25.

(** [regexp.MustCompile(`[^\w\s]`).ReplaceAllString(text, " ")].  A byte is
    kept when it is a word byte or RE2 white space and becomes a blank
    otherwise.  Go replaces a whole rune of several bytes by one blank where
    this puts one blank per byte: the fields of the two texts are the same. *)
Fixpoint replace_punct (text : string) : string :=
  match text with
  | EmptyString => EmptyString
  | String c s' =>
      String (if Byte.is_word c || Byte.is_re_space c then c else " "%char)
             (replace_punct s')
  end.

(** [Tokenize]: lower-case, blank the punctuation, split, keep the words
    longer than two bytes. *)
Definition Tokenize (text : string) : list string :=
  let text := replace_punct (Strings.ToLower text) in
  let words := Strings.Fields text in
  List.filter (fun w => (2 <? String.length w)%nat) words.

(** The engine.  All fields are unexported in Go: an engine is only ever
    made by [New] and changed by [Fit]. *)
Record BM25 : Type := mkBM25 {
  k1 : R;
  b : R;
  corpus : list (list string);
  docLengths : list nat;
  avgdl : R;
  idf : gmap string R;
  docFreqs : gmap string nat;
  N : nat
}.

Definition New (k1 b : R) : BM25 :=
  {| k1 := k1; b := b; corpus := []; docLengths := []; avgdl := 0%R;
     idf := ∅; docFreqs := ∅; N := 0 |}.

(** One document of the document-frequency loop: every word that was not
    [seen] in this document yet adds one to its frequency. *)
Definition count_doc (docFreqs : gmap string nat) (doc : list string) : gmap string nat :=
  snd (fold_left
         (fun (st : gset string * gmap string nat) (word : string) =>
            let (seen, df) := st in
            if decide (word ∈ seen) then (seen, df)
            else ({[ word ]} ∪ seen, <[ word := S (default 0 (df !! word)) ]> df))
         doc (∅, docFreqs)).

(** [math.Log((float64(N-freq)+0.5)/(float64(freq)+0.5) + 1.0)].  [math.Log]
    is [ln]; its argument exceeds 1 whenever [freq <= N] (lemma
    [idf_arg_gt_1]), and [float64(freq)+0.5] is never zero. *)
Definition idf_value (n freq : nat) : R :=
  ln ((IZR (Z.of_nat n - Z.of_nat freq) + 0.5) / (INR freq + 0.5) + 1.0)%R.

(** [Fit].  The first loop fills [corpus] and [docLengths] slot by slot and
    sums the lengths; the last one ranges over the map [docFreqs], writing one
    key of [idf] per entry, so that its visiting order does not matter. *)
Definition Fit (bm : BM25) (documents : list string) : BM25 :=
  let n := length documents in
  if (n =? 0)%nat then
    {| k1 := k1 bm; b := b bm; corpus := corpus bm; docLengths := docLengths bm;
       avgdl := avgdl bm; idf := idf bm; docFreqs := docFreqs bm; N := 0 |}
  else
    let corpus := List.map Tokenize documents in
    let docLengths := List.map (@length string) corpus in
    let totalLen := fold_left Nat.add docLengths 0 in
    let avgdl := (INR totalLen / INR n)%R in
    let docFreqs := fold_left count_doc corpus (docFreqs bm) in
    let idf := map_fold (fun word freq acc => <[ word := idf_value n freq ]> acc)
                        (idf bm) docFreqs in
    {| k1 := k1 bm; b := b bm; corpus := corpus; docLengths := docLengths;
       avgdl := avgdl; idf := idf; docFreqs := docFreqs; N := n |}.

(** A scored document. *)
Module Result.
Record t : Type := mk { Index : nat; Score : R }.
End Result.

(** [termFreqs[word]++] over the words of a document. *)
Definition term_freqs (doc : list string) : gmap string nat :=
  fold_left (fun tfs word => <[ word := S (default 0 (tfs !! word)) ]> tfs) doc ∅.

(** The body of the loop over the query tokens: [score += ...] for a token
    with a known IDF.  Go reads [1.0-b+b*docLen/avgdl] as
    [(1.0-b) + ((b*docLen)/avgdl)] and [idf*numerator/denominator] as
    [(idf*numerator)/denominator]. *)
Definition add_term (bm : BM25) (docLen : R) (termFreqs : gmap string nat)
    (score : R) (token : string) : exec R :=
  match idf bm !! token with
  | Some idf_t =>
      let tf := INR (default 0 (termFreqs !! token)) in
      let numerator := (tf * (k1 bm + 1.0))%R in
      q ← fdiv (b bm * docLen) (avgdl bm);
      let denominator := (tf + k1 bm * (1.0 - b bm + q))%R in
      t ← fdiv (idf_t * numerator) denominator;
      mret (score + t)%R
  | None => mret score
  end.

(** The body of the loop over the corpus. *)
Definition score_doc (bm : BM25) (queryTokens : list string)
    (st : nat * list Result.t) (doc : list string) : exec (nat * list Result.t) :=
  let (idx, results) := st in
  match docLengths bm !! idx with
  | None => raise IndexOutOfRange
  | Some len =>
      let docLen := INR len in
      let termFreqs := term_freqs doc in
      score ← foldM (add_term bm docLen termFreqs) 0%R queryTokens;
      if (idx <? length results)%nat
      then mret (S idx, <[ idx := Result.mk idx score ]> results)
      else raise IndexOutOfRange
  end.

(** [Score]: [results] starts as [N] zero values and slot [idx] is written
    for every document of the corpus. *)
Definition Score (bm : BM25) (query : string) : exec (list Result.t) :=
  let queryTokens := Tokenize query in
  let results := replicate (N bm) (Result.mk 0 0%R) in
  st ← foldM (score_doc bm queryTokens) (0, results) (corpus bm);
  mret (snd st).

End bm25.

(** ** Package [search] *)

Module search.

(** A record of a dataset: [map[string]string]. *)
Abbreviation row := (gmap string string).

Module Config.
Record t : Type := mk {
  File : string;
  SearchCols : list string;
  OutputCols : list string
}.
End Config.

Definition DomainConfigs : gmap string Config.t :=
  list_to_map [
    ("strategy", Config.mk "strategies.csv"
       ["Strategy Name"; "Category"; "Keywords"; "Best For"; "Data Requirements"]
       ["Strategy Name"; "Category"; "Keywords"; "Data Requirements"; "Time Horizon";
        "Best For"; "Complexity"; "Key Parameters"; "Performance Characteristics";
        "Market Conditions"; "Capital Requirements"; "Avoid For"]);
    ("indicator", Config.mk "indicators.csv"
       ["Indicator Name"; "Category"; "Keywords"; "Best For"]
       ["Indicator Name"; "Category"; "Keywords"; "Formula/Description"; "Time-Domain";
        "Best For"; "Parameters"; "Interpretation"; "Limitations"; "Combine With";
        "Avoid For"]);
    ("risk", Config.mk "risk-management.csv"
       ["Risk Control"; "Category"; "Keywords"; "Description"; "Best For"]
       ["Risk Control"; "Category"; "Keywords"; "Description"; "Parameters"; "Best For";
        "Implementation"; "Advantages"; "Disadvantages"; "Critical For"]);
    ("data", Config.mk "data-sources.csv"
       ["Data Type"; "Source"; "Keywords"; "Description"; "Best For"]
       ["Data Type"; "Source"; "Keywords"; "Description"; "Format"; "Frequency";
        "Best For"; "Requirements"; "Typical Cost"]);
    ("anti-pattern", Config.mk "anti-patterns.csv"
       ["Category"; "Issue"; "Keywords"; "Description"]
       ["Category"; "Issue"; "Keywords"; "Description"; "Do"; "Don't"; "Severity";
        "Platform"])
  ].

Definition DomainKeywords : gmap string (list string) :=
  list_to_map [
    ("strategy", ["strategy"; "trading"; "algorithm"; "arbitrage"; "ofi"; "hawkes";
                  "kalman"; "momentum"; "mean-reversion"; "pairs"; "market-making";
                  "statistical"; "execution"; "vwap"; "ml"; "backtest"]);
    ("indicator", ["indicator"; "ema"; "sma"; "rsi"; "macd"; "bollinger"; "atr";
                   "stochastic"; "adx"; "vwap"; "obv"; "tci"; "signal"; "oscillator";
                   "moving average"]);
    ("risk", ["risk"; "position"; "sizing"; "kelly"; "stop"; "loss"; "drawdown"; "var";
              "cvar"; "leverage"; "margin"; "hedge"; "portfolio"; "limit"; "exposure"]);
    ("data", ["data"; "tick"; "order book"; "l2"; "ohlcv"; "bars"; "futures"; "options";
              "on-chain"; "news"; "sentiment"; "fundamental"; "volume"; "feed"; "api"]);
    ("anti-pattern", ["mistake"; "error"; "avoid"; "don't"; "anti-pattern"; "pitfall";
                      "bias"; "overfitting"; "look-ahead"; "survivorship"; "slippage";
                      "bug"; "wrong"])
  ].

Module Result.
Record t : Type := mk {
  Domain : string;
  Query : string;
  File : string;
  Count : nat;
  Results : list row
}.
End Result.

(** The [error] values [Search] returns. *)
Inductive error : Type :=
  | UnknownDomain (domain : string)   (* "unknown domain: %s" *)
  | IOError (msg : string)            (* from [os.Open] or [csv.Reader.ReadAll] *)
  | CSVTooShort.                      (* "CSV file too short" *)

(** What a run depends on beside the arguments of [Search]:
    - [filepath_Join] is [filepath.Join];
    - [csv_ReadAll path] is what [os.Open(path)] followed by
      [csv.NewReader(file).ReadAll()] yields: the rows, or the message of the
      error of either call;
    - [range_scores] is the order in which [range scores] visits the keys of
      the map in [DetectDomain] during this run;
    - [sort_Slice ranked] is what [sort.Slice(ranked, less)] leaves in
      [ranked], for [less(i, j) = ranked[i].Score > ranked[j].Score]. *)
Record Env : Type := mkEnv {
  filepath_Join : string -> string -> string;
  csv_ReadAll : string -> string + list (list string);
  range_scores : list string;
  sort_Slice : list bm25.Result.t -> list bm25.Result.t
}.

(** The inner loop of [DetectDomain]: the keywords found in the query. *)
Definition keyword_score (queryLower : string) (keywords : list string) : nat :=
  fold_left (fun score kw => if Strings.Contains queryLower kw then S score else score)
            keywords 0.

(** The body of the loop that finds the best domain. *)
Definition best_step (scores : gmap string nat) (best : string * nat) (domain : string)
    : string * nat :=
  match scores !! domain with
  | Some score => if (snd best <? score)%nat then (domain, score) else best
  | None => best
  end.

(** [DetectDomain].  The first loop writes [scores[domain]] once per key of
    [DomainKeywords], whatever the order; the second visits the keys of
    [scores] in the order [order]. *)
Definition DetectDomain (order : list string) (query : string) : string :=
  let queryLower := Strings.ToLower query in
  let scores := keyword_score queryLower <$> DomainKeywords in
  let best := fold_left (best_step scores) order ("strategy", 0) in
  if (snd best =? 0)%nat then "strategy" else fst best.

(** The inner loop of [loadCSV]: [row[header] = record[i]] for [i < len(record)]. *)
Fixpoint fill_row (i : nat) (headers record : list string) (r : row) : row :=
  match headers with
  | [] => r
  | header :: headers' =>
      fill_row (S i) headers' record
        (match record !! i with
         | Some v => <[ header := v ]> r
         | None => r
         end)
  end.

Definition loadCSV (env : Env) (filepath : string) : error + list row :=
  match csv_ReadAll env filepath with
  | inl msg => inl (IOError msg)
  | inr records =>
      if (length records <? 2)%nat then inl CSVTooShort
      else
        match records with
        | [] => inl CSVTooShort
        | headers :: rest => inr (List.map (fun record => fill_row 0 headers record ∅) rest)
        end
  end.

(** [documents[i]]: the values of the search columns the row has, joined. *)
Definition document (config : Config.t) (r : row) : string :=
  let parts :=
    fold_left (fun parts col =>
                 match r !! col with
                 | Some val => parts ++ [val]
                 | None => parts
                 end)
              (Config.SearchCols config) [] in
  Strings.Join parts " ".

(** The projection of a row on the output columns. *)
Definition project (config : Config.t) (r : row) : row :=
  fold_left (fun result col =>
               match r !! col with
               | Some val => <[ col := val ]> result
               | None => result
               end)
            (Config.OutputCols config) ∅.

(** The ranking: fit a fresh engine, score the query, sort. *)
Definition rank (env : Env) (config : Config.t) (data : list row) (query : string)
    : exec (list bm25.Result.t) :=
  let documents := List.map (document config) data in
  let engine := bm25.Fit (bm25.New 1.5 0.75) documents in
  ranked ← bm25.Score engine query;
  mret (sort_Slice env ranked).

(** The loop over [ranked] that fills [results]. *)
Fixpoint top_results (config : Config.t) (data : list row) (maxResults : Z)
    (ranked : list bm25.Result.t) (results : list row) : exec (list row) :=
  match ranked with
  | [] => mret results
  | r :: ranked' =>
      if Rle_dec (bm25.Result.Score r) 0 then mret results
      else if (Z.of_nat (length results) >=? maxResults)%Z then mret results
      else
        match data !! bm25.Result.Index r with
        | None => raise IndexOutOfRange
        | Some rw => top_results config data maxResults ranked' (results ++ [project config rw])
        end
  end.

(** What a call of [Search] does: return a result, return an error, or panic. *)
Inductive outcome : Type :=
  | Ok (result : Result.t)
  | Err (e : error)
  | Panic (f : fault).

(** [Search].  [make([]map[string]string, 0, maxResults)] panics for a negative
    capacity.  (It also does for a capacity beyond the allocation limit of the
    platform, which is not modelled.) *)
Definition Search (env : Env) (dataDir query domain : string) (maxResults : Z) : outcome :=
  let domain := if String.eqb domain "" then DetectDomain (range_scores env) query else domain in
  match DomainConfigs !! domain with
  | None => Err (UnknownDomain domain)
  | Some config =>
      let filepath := filepath_Join env dataDir (Config.File config) in
      match loadCSV env filepath with
      | inl err => Err err
      | inr data =>
          match rank env config data query with
          | inl f => Panic f
          | inr ranked =>
              if (maxResults <? 0)%Z then Panic MakeSliceCap
              else
                match top_results config data maxResults ranked [] with
                | inl f => Panic f
                | inr results =>
                    Ok (Result.mk domain query (Config.File config) (length results) results)
                end
          end
      end
  end.

(** The keys of [DomainKeywords] (and so of [scores]), as the source lists them. *)
Definition domains : list string :=
  ["strategy"; "indicator"; "risk"; "data"; "anti-pattern"].

(** The contract of a run's environment: [range] visits every key of the map
    once, and [sort.Slice] permutes the slice so that no element is [less]
    than one before it.  Nothing more is promised of either: [sort.Slice] is
    not guaranteed to be stable. *)
Definition range_ok (order : list string) : Prop := order ≡ₚ domains.

Definition sorted_desc (l : list bm25.Result.t) : Prop :=
  StronglySorted (fun x y => (bm25.Result.Score x >= bm25.Result.Score y)%R) l.

Definition sort_ok (sortSlice : list bm25.Result.t -> list bm25.Result.t) : Prop :=
  forall l, sortSlice l ≡ₚ l /\ sorted_desc (sortSlice l).

Definition Env_ok (env : Env) : Prop :=
  range_ok (range_scores env) /\ sort_ok (sort_Slice env).

End search.

(** ** Vocabulary of the statements *)

(** The document frequency of a term as the specification defines it: the
    number of documents that contain the term at least once. *)
Definition doc_frequency (t : string) (documents : list string) : nat :=
  length (filter (fun d => t ∈ bm25.Tokenize d) documents).

(** The IDF formula as the specification writes it. *)
Definition spec_idf (n df : nat) : R :=
  ln ((INR n - INR df + 0.5) / (INR df + 0.5) + 1)%R.

(** A token byte: lower-case letter, digit or underscore. *)
Definition token_byte (c : ascii) : bool := Byte.is_word c && negb (Byte.is_upper c).

Definition token_bytes (s : string) : Prop :=
  Forall (fun c => token_byte c = true) (list_ascii_of_string s).

(** Every byte of the text [Fields] receives is a token byte or white space. *)
Definition clean (s : string) : Prop :=
  Forall (fun c => Byte.asciiSpace c = false -> token_byte c = true) (list_ascii_of_string s).

(** The number of documents of a tokenized corpus that contain [w]. *)
Definition doc_count (w : string) (corpus : list (list string)) : nat :=
  length (filter (fun doc => w ∈ doc) corpus).

(** The number of occurrences of a token in a tokenized document. *)
Definition term_count (token : string) (doc : list string) : nat :=
  length (filter (fun w => w = token) doc).

(** The contribution of a token of frequency [tf] to the score of a document
    of [docLen] tokens, as the specification writes it:
    [idf * tf*(k1+1) / (tf + k1*(1 - b + b*docLen/avgdl))], and 0 for a token
    outside the fitted vocabulary. *)
Definition contribution (bm : bm25.BM25) (docLen tf : nat) (token : string) : R :=
  match bm25.idf bm !! token with
  | Some idf_t =>
      (idf_t * (INR tf * (bm25.k1 bm + 1))
       / (INR tf + bm25.k1 bm * (1 - bm25.b bm + bm25.b bm * INR docLen / bm25.avgdl bm)))%R
  | None => 0%R
  end.

(** The score of a document: the contributions of the query tokens, summed in
    the order of the query. *)
Definition doc_score (bm : bm25.BM25) (queryTokens doc : list string) : R :=
  fold_left (fun score token =>
               (score + contribution bm (length doc) (term_count token doc) token)%R)
            queryTokens 0%R.

(** The denominator of a contribution. *)
Definition denominator (bm : bm25.BM25) (docLen tf : nat) : R :=
  (INR tf + bm25.k1 bm
            * (1 - bm25.b bm + bm25.b bm * INR docLen / bm25.avgdl bm))%R.

(** An engine whose slices agree, as after [New] and after [Fit]. *)
Definition consistent (bm : bm25.BM25) : Prop :=
  bm25.docLengths bm = List.map (@length string) (bm25.corpus bm) /\
  bm25.N bm = length (bm25.corpus bm).

(** No division of [Score] has a zero divisor. *)
Definition divisions_defined (bm : bm25.BM25) (queryTokens : list string) : Prop :=
  forall doc token, doc ∈ bm25.corpus bm -> token ∈ queryTokens ->
    is_Some (bm25.idf bm !! token) ->
    bm25.avgdl bm <> 0%R /\ denominator bm (length doc) (term_count token doc) <> 0%R.

(** Engine parameters under which every division of [Score] is defined. *)
Definition params_ok (k1 b : R) : Prop := (0 < k1 /\ 0 <= b < 1)%R.

#[global] Instance Rlt_decision (x y : R) : Decision (x < y)%R := Rlt_dec x y.

(** The domain [Search] resolves to. *)
Definition resolve (env : search.Env) (query domain : string) : string :=
  if String.eqb domain "" then search.DetectDomain (search.range_scores env) query
  else domain.

(** The engine [rank] fits for a domain's records. *)
Definition engine_of (config : search.Config.t) (data : list search.row) : bm25.BM25 :=
  bm25.Fit (bm25.New 1.5 0.75) (List.map (search.document config) data).

(** The entries of [ranked] the loop of [Search] takes, [n] results being
    there already: it stops at the first score that is not positive and when
    [maxResults] results are there. *)
Fixpoint accepted (maxResults : Z) (n : nat) (ranked : list bm25.Result.t)
    : list bm25.Result.t :=
  match ranked with
  | [] => []
  | r :: ranked' =>
      if Rle_dec (bm25.Result.Score r) 0 then []
      else if (Z.of_nat n >=? maxResults)%Z then []
      else r :: accepted maxResults (S n) ranked'
  end.

(** The record [Search] returns for a scored document. *)
Definition hit_row (config : search.Config.t) (data : list search.row)
    (r : bm25.Result.t) : search.row :=
  search.project config (default ∅ (data !! bm25.Result.Index r)).

(** The number of documents with a positive score. *)
Definition positive_count (scored : list bm25.Result.t) : nat :=
  length (filter (fun r => (0 < bm25.Result.Score r)%R) scored).

(** Two entries of a slice in the order of the records they stand for: the
    one that comes first has the lower index. *)
Definition record_order (l : list bm25.Result.t) : Prop :=
  forall i j x y, (i < j)%nat -> l !! i = Some x -> l !! j = Some y ->
    bm25.Result.Score x = bm25.Result.Score y ->
    (bm25.Result.Index x < bm25.Result.Index y)%nat.

(** ** Two sorts that meet the contract of [sort.Slice] *)

(** Insertion of [x] before the first entry it is [less] than. *)
Fixpoint insert_desc (x : bm25.Result.t) (l : list bm25.Result.t) : list bm25.Result.t :=
  match l with
  | [] => [x]
  | y :: l' =>
      if Rgt_dec (bm25.Result.Score x) (bm25.Result.Score y) then x :: y :: l'
      else y :: insert_desc x l'
  end.

(** Insertion sort, as Go's [insertionSort_func]: stable. *)
Definition insertion_sort (l : list bm25.Result.t) : list bm25.Result.t :=
  fold_left (fun sorted x => insert_desc x sorted) l [].

(** [data.Swap(0, k)]. *)
Definition swap_front (k : nat) (l : list bm25.Result.t) : list bm25.Result.t :=
  match l with
  | [] => []
  | x :: rest =>
      match k with
      | O => l
      | S k' =>
          match rest !! k' with
          | Some p => p :: <[ k' := x ]> rest
          | None => l
          end
      end
  end.

(** An unstable sort: for more than 12 entries the entry at the middle
    sample position [n/4*2] is swapped to the front, as the partition step of
    a quicksort does with its pivot, before the insertion sort. *)
Definition pivot_first_sort (l : list bm25.Result.t) : list bm25.Result.t :=
  if (length l <=? 12)%nat then insertion_sort l
  else insertion_sort (swap_front (length l / 4 * 2) l).

(** ** An example record store *)

(** A file of [indicators.csv]'s shape with thirteen records; the records 3
    and 6 have the same key words and differ in their parameters. *)
Definition example_records : list (list string) :=
  [ ["Keywords"; "Parameters"];
    ["volume"; "p0"]; ["volume"; "p1"]; ["volume"; "p2"];
    ["momentum"; "first"];
    ["volume"; "p4"]; ["volume"; "p5"];
    ["momentum"; "second"];
    ["volume"; "p7"]; ["volume"; "p8"]; ["volume"; "p9"];
    ["volume"; "p10"]; ["volume"; "p11"]; ["volume"; "p12"] ].

Definition example_Join (dir file : string) : string := (dir ++ "/" ++ file)%string.

(** A run over that file in which [sort.Slice] behaves as [sortSlice]. *)
Definition example_env (sortSlice : list bm25.Result.t -> list bm25.Result.t) : search.Env :=
  search.mkEnv example_Join (fun _ => inr example_records) search.domains sortSlice.

(** A run over a file that has its header row only. *)
Definition header_only_env : search.Env :=
  search.mkEnv example_Join (fun _ => inr [["Keywords"; "Parameters"]])
               search.domains insertion_sort.

(** The records 3 and 6 of the example, as [Search] returns them. *)
Definition example_first : search.row :=
  {[ "Keywords" := "momentum"; "Parameters" := "first" ]}.
Definition example_second : search.row :=
  {[ "Keywords" := "momentum"; "Parameters" := "second" ]}.

(** The configuration of the domain "indicator". *)
Definition indicator_config : search.Config.t :=
  search.Config.mk "indicators.csv"
    ["Indicator Name"; "Category"; "Keywords"; "Best For"]
    ["Indicator Name"; "Category"; "Keywords"; "Formula/Description"; "Time-Domain";
     "Best For"; "Parameters"; "Interpretation"; "Limitations"; "Combine With";
     "Avoid For"].

(** The rows [loadCSV] makes of the example file. *)
Definition example_data : list search.row :=
  List.map (fun record => search.fill_row 0 ["Keywords"; "Parameters"] record ∅)
           (tail example_records).

(** Two orders in which [range scores] may visit the five domains. *)
Definition strategy_first : list string :=
  ["strategy"; "indicator"; "risk"; "data"; "anti-pattern"].
Definition indicator_first : list string :=
  ["indicator"; "strategy"; "risk"; "data"; "anti-pattern"].

(** Two runs over the example record store that differ in that order only. *)
Definition run_strategy_first : search.Env :=
  search.mkEnv example_Join (fun _ => inr example_records) strategy_first insertion_sort.
Definition run_indicator_first : search.Env :=
  search.mkEnv example_Join (fun _ => inr example_records) indicator_first insertion_sort.

(** The configuration of the domain "strategy". *)
Definition strategy_config : search.Config.t :=
  search.Config.mk "strategies.csv"
    ["Strategy Name"; "Category"; "Keywords"; "Best For"; "Data Requirements"]
    ["Strategy Name"; "Category"; "Keywords"; "Data Requirements"; "Time Horizon";
     "Best For"; "Complexity"; "Key Parameters"; "Performance Characteristics";
     "Market Conditions"; "Capital Requirements"; "Avoid For"].

(** The slice [Score] returns for the example, the records 3 and 6 having the
    score [t]. *)
Definition example_scored (t : R) : list bm25.Result.t :=
  [ bm25.Result.mk 0 0; bm25.Result.mk 1 0; bm25.Result.mk 2 0; bm25.Result.mk 3 t;
    bm25.Result.mk 4 0; bm25.Result.mk 5 0; bm25.Result.mk 6 t; bm25.Result.mk 7 0;
    bm25.Result.mk 8 0; bm25.Result.mk 9 0; bm25.Result.mk 10 0; bm25.Result.mk 11 0;
    bm25.Result.mk 12 0 ].

(** ** The command-line program *)

(** [truncate]: [s[:max]] panics for a negative [max] ([None]). *)
Definition truncate (s : string) (max : Z) : option string :=
  if (Z.of_nat (String.length s) <=? max)%Z then Some s
  else if (max <? 0)%Z then None
  else Some (String.substring 0 (Z.to_nat max) s ++ "...")%string.

(** * Properties *)

(** ** The tokenizer *)

Section Tokenizer.

Import Byte Strings.

Lemma to_lower_not_upper c : is_upper (to_lower c) = false.
Proof. destruct c as [[] [] [] [] [] [] [] []]; reflexivity. Qed.

Lemma string_length_ind (P : string -> Prop) :
  (forall s, (forall t, (String.length t < String.length s)%nat -> P t) -> P s) ->
  forall s, P s.
Proof.
  intros H s. remember (String.length s) as n eqn:E.
  revert s E. induction n as [n IH] using lt_wf_ind. intros s ->.
  apply H. intros t Ht. exact (IH _ Ht t eq_refl).
Qed.

(** The three cases of [ToLower] on a text that is not empty. *)
Lemma ToLower_cases c s1 :
  (c = "196"%char /\ exists s2, s1 = String "176" s2 /\
     ToLower (String c s1) = String "i" (ToLower s2)) \/
  (c = "226"%char /\ exists s3, s1 = String "132" (String "170" s3) /\
     ToLower (String c s1) = String "k" (ToLower s3)) \/
  ((forall s2, s1 = String "176" s2 -> c <> "196"%char) /\
   (forall s3, s1 = String "132" (String "170" s3) -> c <> "226"%char) /\
   ToLower (String c s1) = String (to_lower c) (ToLower s1)).
Proof.
  destruct s1 as [|c2 s2].
  { right. right. repeat split; intros; discriminate. }
  destruct (dotted_I c c2) eqn:EI.
  { left. unfold dotted_I in EI. apply andb_true_iff in EI as [E1 E2].
    apply Ascii.eqb_eq in E1, E2. subst. split; [reflexivity|].
    exists s2. split; reflexivity. }
  assert (HI : forall s, String c2 s2 = String "176" s -> c <> "196"%char).
  { intros s [= -> _] ->. discriminate EI. }
  destruct s2 as [|c3 s3].
  { right. right. split; [exact HI|]. split; [intros; discriminate|].
    cbn [ToLower]. rewrite EI. reflexivity. }
  destruct (kelvin c c2 c3) eqn:EK.
  { right. left. unfold kelvin in EK. apply andb_true_iff in EK as [EK E3].
    apply andb_true_iff in EK as [E1 E2].
    apply Ascii.eqb_eq in E1, E2, E3. subst. split; [reflexivity|].
    exists s3. split; reflexivity. }
  right. right. split; [exact HI|]. split.
  - intros s [= -> -> _] ->. discriminate EK.
  - change (ToLower (String c (String c2 (String c3 s3))))
      with (if dotted_I c c2 then String "i" (ToLower (String c3 s3))
            else if kelvin c c2 c3 then String "k" (ToLower s3)
                 else String (to_lower c) (ToLower (String c2 (String c3 s3)))).
    rewrite EI, EK. reflexivity.
Qed.

(** A byte that is neither of the two lead bytes is lowered by itself. *)
Lemma ToLower_byte c s :
  c <> "196"%char -> c <> "226"%char ->
  ToLower (String c s) = String (to_lower c) (ToLower s).
Proof.
  intros H1 H2.
  destruct (ToLower_cases c s) as [[-> _]|[[-> _]|(_ & _ & H)]]; [congruence | congruence | exact H].
Qed.

Lemma ToLower_no_upper s :
  Forall (fun c => is_upper c = false) (list_ascii_of_string (ToLower s)).
Proof.
  induction s as [[|c s1] IH] using string_length_ind; [constructor|].
  destruct (ToLower_cases c s1)
    as [(-> & s2 & -> & ->)|[(-> & s3 & -> & ->)|(_ & _ & ->)]];
    cbn [list_ascii_of_string]; constructor;
    try reflexivity; try apply to_lower_not_upper; apply IH; simpl; lia.
Qed.

Lemma replace_punct_clean text :
  Forall (fun c => is_upper c = false) (list_ascii_of_string text) ->
  clean (bm25.replace_punct text).
Proof.
  unfold clean. induction text as [|c text IH]; simpl; intros H; constructor.
  - inversion H as [|? ? Hup _]; subst. intros Hsp.
    destruct (is_word c || is_re_space c) eqn:E.
    + unfold token_byte. rewrite Hup. simpl. rewrite andb_true_r.
      apply orb_true_iff in E as [E|E]; [exact E|].
      revert Hsp E. destruct c as [[] [] [] [] [] [] [] []]; vm_compute; congruence.
    + discriminate Hsp.
  - apply IH. inversion H; assumption.
Qed.

Lemma replace_punct_lower_clean text : clean (bm25.replace_punct (ToLower text)).
Proof. apply replace_punct_clean, ToLower_no_upper. Qed.

Lemma token_bytes_nil : token_bytes "".
Proof. constructor. Qed.

Lemma token_bytes_app w c :
  token_bytes w -> token_byte c = true -> token_bytes (w ++ String c "")%string.
Proof.
  unfold token_bytes. induction w as [|a w IH]; simpl; intros Hw Hc.
  - constructor; [exact Hc | constructor].
  - inversion Hw; subst. constructor; auto.
Qed.

Lemma fields_from_token_bytes s : forall w tok,
  clean s -> token_bytes w -> In tok (fields_from w s) -> token_bytes tok.
Proof.
  induction s as [|c s IH]; simpl; intros w tok Hs Hw Hin.
  - destruct (String.eqb w ""); simpl in Hin; [tauto|].
    destruct Hin as [<-|[]]; exact Hw.
  - unfold clean in Hs. simpl in Hs. inversion Hs as [|? ? Hc Hs']; subst.
    fold (clean s) in Hs'.
    destruct (asciiSpace c) eqn:Esp.
    + destruct (String.eqb w "").
      * exact (IH _ tok Hs' token_bytes_nil Hin).
      * destruct Hin as [<-|Hin]; [exact Hw|].
        exact (IH _ tok Hs' token_bytes_nil Hin).
    + eapply IH; [exact Hs' | | exact Hin].
      apply token_bytes_app; auto.
Qed.

Lemma Tokenize_In text tok :
  In tok (bm25.Tokenize text) ->
  token_bytes tok /\ (2 < String.length tok)%nat.
Proof.
  unfold bm25.Tokenize. intros Hin.
  apply List.filter_In in Hin as [Hin Hlen].
  split.
  - eapply fields_from_token_bytes; [apply replace_punct_lower_clean | apply token_bytes_nil | exact Hin].
  - apply Nat.ltb_lt. exact Hlen.
Qed.

Lemma token_byte_not_lead c :
  token_byte c = true -> c <> "196"%char /\ c <> "226"%char.
Proof. intros H. split; intros ->; discriminate H. Qed.

Lemma token_bytes_lower tok : token_bytes tok -> ToLower tok = tok.
Proof.
  unfold token_bytes. induction tok as [|c tok IH]; intros H; [reflexivity|].
  cbn [list_ascii_of_string] in H.
  inversion H as [|? ? Hc Htok]; subst.
  destruct (token_byte_not_lead c Hc) as [H1 H2].
  rewrite ToLower_byte by assumption. rewrite IH by exact Htok.
  f_equal. unfold to_lower. unfold token_byte in Hc.
  apply andb_true_iff in Hc as [_ Hc]. apply negb_true_iff in Hc. rewrite Hc. reflexivity.
Qed.

Lemma token_bytes_word tok :
  token_bytes tok -> Forall (fun c => is_word c = true) (list_ascii_of_string tok).
Proof.
  unfold token_bytes. apply List.Forall_impl. intros c Hc.
  unfold token_byte in Hc. apply andb_true_iff in Hc. tauto.
Qed.

End Tokenizer.

(** C4. Every token [Tokenize] produces is lower-case (lower-casing leaves it
    as it is, and none of its bytes is an upper-case letter), is made of
    letters, digits and underscores only, and is longer than two bytes; the
    empty text has no token. *)
Theorem C4_tokenize_tokens :
  (forall text tok, In tok (bm25.Tokenize text) ->
     Strings.ToLower tok = tok /\
     Forall (fun c => Byte.is_word c = true /\ Byte.is_upper c = false)
            (list_ascii_of_string tok) /\
     (2 < String.length tok)%nat) /\
  bm25.Tokenize "" = [].
Proof.
  split; [|reflexivity].
  intros text tok Hin. apply Tokenize_In in Hin as [Hb Hlen].
  split; [apply token_bytes_lower; exact Hb|]. split; [|exact Hlen].
  revert Hb. unfold token_bytes. apply List.Forall_impl. intros c Hc.
  unfold token_byte in Hc. apply andb_true_iff in Hc as [Hw Hu].
  apply negb_true_iff in Hu. auto.
Qed.

(** ** Index construction *)

Section Fit.

Import bm25.

Lemma doc_count_cons w doc corpus :
  doc_count w (doc :: corpus) =
  ((if decide (w ∈ doc) then 1 else 0) + doc_count w corpus)%nat.
Proof.
  unfold doc_count. rewrite filter_cons. destruct (decide (w ∈ doc)); reflexivity.
Qed.

Lemma doc_count_Tokenize t documents :
  doc_count t (List.map Tokenize documents) = doc_frequency t documents.
Proof.
  unfold doc_count, doc_frequency.
  induction documents as [|d documents IH]; [reflexivity|].
  simpl. rewrite !filter_cons.
  destruct (decide (t ∈ Tokenize d)); simpl; rewrite IH; reflexivity.
Qed.

Lemma doc_count_le w corpus : (doc_count w corpus <= length corpus)%nat.
Proof.
  induction corpus as [|doc corpus IH]; [reflexivity|].
  rewrite doc_count_cons. simpl. destruct (decide (w ∈ doc)); lia.
Qed.

Lemma doc_count_pos w corpus :
  (0 < doc_count w corpus)%nat <-> exists doc, doc ∈ corpus /\ w ∈ doc.
Proof.
  induction corpus as [|doc corpus IH].
  - split; [inversion 1 | intros (doc & H & _); inversion H].
  - rewrite doc_count_cons. split.
    + intros H. destruct (decide (w ∈ doc)) as [Hin|Hin].
      * exists doc. split; [left | exact Hin].
      * simpl in H. apply IH in H as (doc' & H1 & H2).
        exists doc'. split; [right; exact H1 | exact H2].
    + intros (doc' & H1 & H2). apply elem_of_cons in H1 as [->|H1].
      * rewrite decide_True by exact H2. lia.
      * assert (0 < doc_count w corpus)%nat by (apply IH; eauto). lia.
Qed.

(** One document adds one to the frequency of each of its distinct words. *)
Lemma count_doc_fold (df : gmap string nat) (doc : list string) :
  forall (seen : gset string) (d : gmap string nat),
  (forall w, d !! w = if decide (w ∈ seen) then Some (S (default 0 (df !! w))) else df !! w) ->
  forall w,
    snd (fold_left
           (fun (st : gset string * gmap string nat) (word : string) =>
              let (seen, df) := st in
              if decide (word ∈ seen) then (seen, df)
              else ({[ word ]} ∪ seen, <[ word := S (default 0 (df !! word)) ]> df))
           doc (seen, d)) !! w
    = if decide (w ∈ seen ∨ w ∈ doc) then Some (S (default 0 (df !! w))) else df !! w.
Proof.
  induction doc as [|word doc IH]; intros seen d Hd w; simpl.
  - rewrite Hd. destruct (decide (w ∈ seen)) as [Hin|Hin].
    + rewrite decide_True by (left; exact Hin). reflexivity.
    + rewrite decide_False; [reflexivity|]. intros [H|H]; [tauto | inversion H].
  - destruct (decide (word ∈ seen)) as [Hs|Hs].
    + rewrite (IH seen d Hd).
      destruct (decide (w ∈ seen ∨ w ∈ doc)) as [H|H].
      * rewrite decide_True; [reflexivity|]. destruct H; [left|right;right]; assumption.
      * rewrite decide_False; [reflexivity|].
        intros [H'|H']; [tauto|]. apply elem_of_cons in H' as [->|H']; tauto.
    + rewrite IH.
      * destruct (decide (w ∈ {[word]} ∪ seen ∨ w ∈ doc)) as [H|H].
        -- rewrite decide_True; [reflexivity|].
           destruct H as [H|H]; [|right; right; exact H].
           apply elem_of_union in H as [H|H]; [|left; exact H].
           apply elem_of_singleton in H as ->. right; left.
        -- rewrite decide_False; [reflexivity|]. intros [H'|H']; apply H.
           ++ left. apply elem_of_union; right; exact H'.
           ++ apply elem_of_cons in H' as [->|H'].
              ** left. apply elem_of_union; left. apply elem_of_singleton; reflexivity.
              ** right; exact H'.
      * intros w'. destruct (decide (w' = word)) as [->|Hne].
        -- rewrite lookup_insert_eq. rewrite decide_True.
           ++ rewrite Hd. rewrite decide_False by exact Hs. reflexivity.
           ++ apply elem_of_union; left. apply elem_of_singleton; reflexivity.
        -- rewrite lookup_insert_ne by congruence. rewrite Hd.
           destruct (decide (w' ∈ seen)) as [H|H].
           ++ rewrite decide_True; [reflexivity|]. apply elem_of_union; right; exact H.
           ++ rewrite decide_False; [reflexivity|]. intros H'.
              apply elem_of_union in H' as [H'|H']; [|tauto].
              apply elem_of_singleton in H'. congruence.
Qed.

Lemma count_doc_lookup df doc w :
  count_doc df doc !! w =
  if decide (w ∈ doc) then Some (S (default 0 (df !! w))) else df !! w.
Proof.
  unfold count_doc. rewrite (count_doc_fold df doc ∅ df).
  - destruct (decide (w ∈ doc)) as [H|H].
    + rewrite decide_True by (right; exact H). reflexivity.
    + rewrite decide_False; [reflexivity|]. intros [H'|H']; [|tauto].
      apply not_elem_of_empty in H'. exact H'.
  - intros w'. rewrite decide_False; [reflexivity|]. apply not_elem_of_empty.
Qed.

(** The document frequencies after the loop over the corpus. *)
Lemma docFreqs_lookup corpus : forall df w,
  fold_left count_doc corpus df !! w =
  if decide (doc_count w corpus = 0)%nat then df !! w
  else Some (doc_count w corpus + default 0 (df !! w))%nat.
Proof.
  induction corpus as [|doc corpus IH]; intros df w; simpl.
  - reflexivity.
  - rewrite IH, doc_count_cons, count_doc_lookup.
    destruct (decide (w ∈ doc)) as [Hin|Hin];
      destruct (decide (doc_count w corpus = 0)%nat) as [Hz|Hz]; simpl.
    + rewrite Hz. reflexivity.
    + f_equal. lia.
    + rewrite decide_True by exact Hz. reflexivity.
    + rewrite decide_False by exact Hz. reflexivity.
Qed.

(** The IDF map after the loop over the document frequencies. *)
Lemma idf_fold_lookup (n : nat) (idf0 : gmap string R) (df : gmap string nat) w :
  map_fold (fun word freq acc => <[ word := idf_value n freq ]> acc) idf0 df !! w =
  match df !! w with
  | Some freq => Some (idf_value n freq)
  | None => idf0 !! w
  end.
Proof.
  revert w.
  apply (map_fold_weak_ind
           (fun (r : gmap string R) (m : gmap string nat) =>
              forall w, r !! w = match m !! w with
                                 | Some freq => Some (idf_value n freq)
                                 | None => idf0 !! w
                                 end)).
  - intros w. rewrite lookup_empty. reflexivity.
  - intros i x m r Hi IH w. destruct (decide (w = i)) as [->|Hne].
    + rewrite !lookup_insert_eq. reflexivity.
    + rewrite !lookup_insert_ne by congruence. apply IH.
Qed.

Lemma idf_value_spec n df : (df <= n)%nat -> idf_value n df = spec_idf n df.
Proof.
  intros _. unfold idf_value, spec_idf.
  rewrite minus_IZR, <- !INR_IZR_INZ. do 2 f_equal. lra.
Qed.

(** The argument of [math.Log] exceeds 1: the logarithm is defined. *)
Lemma idf_arg_gt_1 n df :
  (df <= n)%nat -> (1 < (INR n - INR df + 0.5) / (INR df + 0.5) + 1)%R.
Proof.
  intros Hle. apply le_INR in Hle. pose proof (pos_INR df) as Hdf.
  assert (0 < (INR n - INR df + 0.5) / (INR df + 0.5))%R; [|lra].
  apply Rdiv_lt_0_compat; lra.
Qed.

Lemma spec_idf_pos n df : (df <= n)%nat -> (0 < spec_idf n df)%R.
Proof.
  intros Hle. unfold spec_idf. rewrite <- ln_1.
  apply ln_increasing; [lra | apply idf_arg_gt_1; exact Hle].
Qed.

(** More documents with the term, lower IDF. *)
Lemma spec_idf_decreasing n df1 df2 :
  (df1 < df2)%nat -> (df2 <= n)%nat -> (spec_idf n df2 < spec_idf n df1)%R.
Proof.
  intros Hlt Hle. unfold spec_idf.
  assert (H1 : (INR df1 < INR df2)%R) by (apply lt_INR; exact Hlt).
  assert (H2 : (INR df2 <= INR n)%R) by (apply le_INR; exact Hle).
  pose proof (pos_INR df1) as H0.
  apply ln_increasing.
  - pose proof (idf_arg_gt_1 n df2 Hle). lra.
  - apply Rplus_lt_compat_r.
    apply Rlt_trans with ((INR n - INR df2 + 0.5) / (INR df1 + 0.5))%R.
    + unfold Rdiv. apply Rmult_lt_compat_l; [lra|].
      apply Rinv_lt_contravar; [|lra]. apply Rmult_lt_0_compat; lra.
    + unfold Rdiv. apply Rmult_lt_compat_r; [|lra].
      apply Rinv_0_lt_compat. lra.
Qed.

(** The fields of an engine fitted once. *)
Lemma Fit_New_fields k1 b d documents :
  let bm := Fit (New k1 b) (d :: documents) in
  corpus bm = List.map Tokenize (d :: documents) /\
  docLengths bm = List.map (@length string) (corpus bm) /\
  N bm = length (d :: documents) /\
  bm25.k1 bm = k1 /\ bm25.b bm = b /\
  avgdl bm = (INR (fold_left Nat.add (docLengths bm) 0%nat) / INR (N bm))%R.
Proof. simpl. repeat split; reflexivity. Qed.

Lemma Fit_docFreqs bm d documents :
  docFreqs (Fit bm (d :: documents)) =
  fold_left count_doc (List.map Tokenize (d :: documents)) (docFreqs bm).
Proof. reflexivity. Qed.

Lemma Fit_idf bm d documents :
  idf (Fit bm (d :: documents)) =
  map_fold (fun word freq acc => <[ word := idf_value (length (d :: documents)) freq ]> acc)
           (idf bm) (docFreqs (Fit bm (d :: documents))).
Proof. reflexivity. Qed.

Lemma Fit_New_docFreqs k1 b documents t :
  documents <> [] ->
  docFreqs (Fit (New k1 b) documents) !! t =
  if decide (doc_frequency t documents = 0)%nat then None
  else Some (doc_frequency t documents).
Proof.
  intros Hne. destruct documents as [|d documents]; [congruence|].
  rewrite Fit_docFreqs, docFreqs_lookup, doc_count_Tokenize.
  change (docFreqs (New k1 b)) with (∅ : gmap string nat).
  rewrite lookup_empty. simpl.
  destruct (decide _); [reflexivity|]. f_equal. lia.
Qed.

Lemma Fit_New_idf k1 b documents t :
  documents <> [] ->
  idf (Fit (New k1 b) documents) !! t =
  if decide (doc_frequency t documents = 0)%nat then None
  else Some (spec_idf (length documents) (doc_frequency t documents)).
Proof.
  intros Hne. pose proof (Fit_New_docFreqs k1 b documents t Hne) as Hdf.
  destruct documents as [|d documents]; [congruence|].
  rewrite Fit_idf, idf_fold_lookup, Hdf.
  destruct (decide _); [apply lookup_empty|].
  rewrite idf_value_spec; [reflexivity|].
  rewrite <- doc_count_Tokenize. etransitivity; [apply doc_count_le|].
  rewrite length_map. reflexivity.
Qed.

Lemma doc_frequency_le t documents : (doc_frequency t documents <= length documents)%nat.
Proof.
  rewrite <- doc_count_Tokenize. etransitivity; [apply doc_count_le|].
  rewrite length_map. reflexivity.
Qed.

End Fit.

(** With a single document every term appears in
    every document and in exactly one document: "alpha" and "beta" then have
    the same IDF, not a strictly lower one. *)
Lemma single_document_idf_tie :
  exists v1 v2 : R,
    bm25.idf (bm25.Fit (bm25.New 1.5 0.75) ["alpha beta gamma"]) !! "alpha" = Some v1 /\
    bm25.idf (bm25.Fit (bm25.New 1.5 0.75) ["alpha beta gamma"]) !! "beta" = Some v2 /\
    doc_frequency "alpha" ["alpha beta gamma"] = length ["alpha beta gamma"] /\
    doc_frequency "beta" ["alpha beta gamma"] = 1%nat /\
    ~ (v1 < v2)%R.
Proof.
  exists (spec_idf 1 1), (spec_idf 1 1).
  split; [|split; [|split; [|split]]].
  - rewrite Fit_New_idf by discriminate. reflexivity.
  - rewrite Fit_New_idf by discriminate. reflexivity.
  - reflexivity.
  - reflexivity.
  - apply Rlt_irrefl.
Qed.

(** [Fit] on an engine that was fitted before adds to the document
    frequencies of the first fit: "alpha" then counts 2 among [N = 1]
    documents and its IDF, [ln 0.8], is negative. *)
Lemma refit_idf_negative :
  exists v : R,
    bm25.idf (bm25.Fit (bm25.Fit (bm25.New 1.5 0.75) ["alpha beta gamma"])
                       ["alpha beta gamma"]) !! "alpha" = Some v /\
    (v < 0)%R.
Proof.
  exists (bm25.idf_value 1 2). split.
  - rewrite Fit_idf, idf_fold_lookup, Fit_docFreqs, docFreqs_lookup.
    rewrite Fit_New_docFreqs by discriminate. reflexivity.
  - unfold bm25.idf_value. rewrite <- ln_1.
    change (Z.of_nat 1 - Z.of_nat 2)%Z with (-1)%Z. change (INR 2) with (1 + 1)%R.
    apply ln_increasing; lra.
Qed.

(** C5 (as stated, refuted), both ways: the single document above, and an
    engine that was fitted before, whose IDF for "alpha" is negative. *)
Lemma C5_idf_counterexample :
  (exists v1 v2 : R,
     bm25.idf (bm25.Fit (bm25.New 1.5 0.75) ["alpha beta gamma"]) !! "alpha" = Some v1 /\
     bm25.idf (bm25.Fit (bm25.New 1.5 0.75) ["alpha beta gamma"]) !! "beta" = Some v2 /\
     doc_frequency "alpha" ["alpha beta gamma"] = length ["alpha beta gamma"] /\
     doc_frequency "beta" ["alpha beta gamma"] = 1%nat /\
     ~ (v1 < v2)%R) /\
  (exists v : R,
     bm25.idf (bm25.Fit (bm25.Fit (bm25.New 1.5 0.75) ["alpha beta gamma"])
                        ["alpha beta gamma"]) !! "alpha" = Some v /\
     (v < 0)%R).
Proof. split; [exact single_document_idf_tie | exact refit_idf_negative]. Qed.

(** C5 (amended). After [Fit], on an engine made by [New] and not fitted
    before, on a non-empty collection of [N] documents the index holds
    exactly the terms that occur in some document; the IDF of each is
    [ln((N - df + 0.5) / (df + 0.5) + 1)] for its document frequency [df],
    and is strictly positive; and when the collection has at least two
    documents, a term of every document has a strictly lower IDF than a term
    of exactly one document. *)
Theorem C5_idf_formula_positive (k1 b : R) (documents : list string) :
  documents <> [] ->
  (forall t, is_Some (bm25.idf (bm25.Fit (bm25.New k1 b) documents) !! t) <->
             (1 <= doc_frequency t documents)%nat) /\
  (forall t v, bm25.idf (bm25.Fit (bm25.New k1 b) documents) !! t = Some v ->
     v = spec_idf (length documents) (doc_frequency t documents) /\ (0 < v)%R) /\
  ((2 <= length documents)%nat ->
   forall t1 t2 v1 v2,
     bm25.idf (bm25.Fit (bm25.New k1 b) documents) !! t1 = Some v1 ->
     bm25.idf (bm25.Fit (bm25.New k1 b) documents) !! t2 = Some v2 ->
     doc_frequency t1 documents = length documents ->
     doc_frequency t2 documents = 1%nat ->
     (v1 < v2)%R).
Proof.
  intros Hne.
  assert (Hv : forall t v,
             bm25.idf (bm25.Fit (bm25.New k1 b) documents) !! t = Some v ->
             v = spec_idf (length documents) (doc_frequency t documents)).
  { intros t v. rewrite Fit_New_idf by exact Hne.
    destruct (decide _); congruence. }
  split; [|split].
  - intros t. rewrite Fit_New_idf by exact Hne.
    destruct (decide (doc_frequency t documents = 0)%nat) as [Hz|Hz]; split.
    + intros [v Hv']. discriminate.
    + lia.
    + lia.
    + eauto.
  - intros t v Hl. rewrite (Hv t v Hl). split; [reflexivity|].
    apply spec_idf_pos, doc_frequency_le.
  - intros Hn t1 t2 v1 v2 H1 H2 Hd1 Hd2.
    rewrite (Hv _ _ H1), (Hv _ _ H2), Hd1, Hd2.
    apply spec_idf_decreasing; lia.
Qed.

Lemma C5_idf_witness :
  exists v1 v2 : R,
    bm25.idf (bm25.Fit (bm25.New 1.5 0.75)
                ["rsi momentum oscillator"; "momentum trading"]) !! "momentum" = Some v1 /\
    bm25.idf (bm25.Fit (bm25.New 1.5 0.75)
                ["rsi momentum oscillator"; "momentum trading"]) !! "rsi" = Some v2 /\
    (0 < v1)%R /\ (v1 < v2)%R.
Proof.
  destruct (C5_idf_formula_positive 1.5 0.75
              ["rsi momentum oscillator"; "momentum trading"]) as (Hdom & Hval & Hlt).
  - discriminate.
  - destruct (proj2 (Hdom "momentum")) as [v1 H1]; [vm_compute; lia|].
    destruct (proj2 (Hdom "rsi")) as [v2 H2]; [vm_compute; lia|].
    exists v1, v2. split; [exact H1|]. split; [exact H2|]. split.
    + exact (proj2 (Hval _ _ H1)).
    + apply (Hlt ltac:(simpl; lia) "momentum" "rsi" v1 v2 H1 H2); reflexivity.
Defined.

(** ** Scoring *)

Section Score.

Import bm25.

Lemma term_freqs_fold doc : forall (tfs : gmap string nat) w,
  default 0%nat
    (fold_left (fun tfs word => <[ word := S (default 0%nat (tfs !! word)) ]> tfs) doc tfs
       !! w)
  = (term_count w doc + default 0%nat (tfs !! w))%nat.
Proof.
  unfold term_count.
  induction doc as [|word doc IH]; intros tfs w; simpl; [reflexivity|].
  rewrite IH, filter_cons. destruct (decide (word = w)) as [->|Hne].
  - rewrite lookup_insert_eq. simpl. lia.
  - rewrite lookup_insert_ne by exact Hne. reflexivity.
Qed.

Lemma term_freqs_lookup doc w :
  default 0%nat (term_freqs doc !! w) = term_count w doc.
Proof.
  unfold term_freqs. rewrite term_freqs_fold, lookup_empty. simpl. lia.
Qed.

Lemma term_count_le w doc : (term_count w doc <= length doc)%nat.
Proof. unfold term_count. apply length_filter. Qed.

Lemma term_count_pos w doc : w ∈ doc -> (0 < term_count w doc)%nat.
Proof.
  unfold term_count. induction doc as [|x doc IH]; intros H.
  - inversion H.
  - rewrite filter_cons. apply elem_of_cons in H as [->|H].
    + rewrite decide_True by reflexivity. simpl. lia.
    + destruct (decide (x = w)); simpl; [lia | auto].
Qed.

(** [fdiv] by a divisor that is not zero. *)
Lemma fdiv_ok x y : y <> 0%R -> fdiv x y = inr (x / y)%R.
Proof. intros H. unfold fdiv. destruct (Req_dec_T y 0); [contradiction | reflexivity]. Qed.

Lemma fdiv_zero x : fdiv x 0 = inl (DivByZero x).
Proof. unfold fdiv. destruct (Req_dec_T 0 0); [reflexivity | congruence]. Qed.

(** One step of the loop over the query tokens, when its divisions are defined. *)
Lemma add_term_defined bm (len : nat) (tfs : gmap string nat) score token :
  (is_Some (idf bm !! token) ->
   avgdl bm <> 0%R /\ denominator bm len (default 0%nat (tfs !! token)) <> 0%R) ->
  add_term bm (INR len) tfs score token =
  inr (score + contribution bm len (default 0%nat (tfs !! token)) token)%R.
Proof.
  intros Hsafe. unfold add_term, contribution.
  destruct (idf bm !! token) as [idf_t|] eqn:E.
  - destruct Hsafe as [Ha Hd]; [eauto|].
    rewrite fdiv_ok by exact Ha. simpl.
    unfold denominator in Hd.
    replace (1.0 - b bm + b bm * INR len / avgdl bm)%R
      with (1 - b bm + b bm * INR len / avgdl bm)%R by lra.
    rewrite fdiv_ok by exact Hd. simpl.
    replace (k1 bm + 1.0)%R with (k1 bm + 1)%R by lra. reflexivity.
  - simpl. unfold mret, exec_ret. f_equal. lra.
Qed.

Lemma add_term_ok bm (len : nat) doc score token :
  (is_Some (idf bm !! token) ->
   avgdl bm <> 0%R /\ denominator bm len (term_count token doc) <> 0%R) ->
  add_term bm (INR len) (term_freqs doc) score token =
  inr (score + contribution bm len (term_count token doc) token)%R.
Proof.
  intros Hsafe. rewrite add_term_defined; rewrite term_freqs_lookup; [reflexivity | exact Hsafe].
Qed.

Lemma foldM_add_term_ok bm (len : nat) doc queryTokens : forall score,
  (forall token, token ∈ queryTokens -> is_Some (idf bm !! token) ->
     avgdl bm <> 0%R /\ denominator bm len (term_count token doc) <> 0%R) ->
  foldM (add_term bm (INR len) (term_freqs doc)) score queryTokens =
  inr (fold_left (fun score token =>
                    (score + contribution bm len (term_count token doc) token)%R)
                 queryTokens score).
Proof.
  induction queryTokens as [|token queryTokens IH]; intros score Hsafe; simpl.
  - reflexivity.
  - rewrite add_term_ok by (apply Hsafe; left). simpl.
    apply IH. intros t Ht. apply Hsafe. right. exact Ht.
Qed.

Lemma foldM_app {A S} (body : S -> A -> exec S) (l1 l2 : list A) : forall s,
  foldM body s (l1 ++ l2) = (s' ← foldM body s l1; foldM body s' l2).
Proof.
  induction l1 as [|x l1 IH]; intros s; simpl; [reflexivity|].
  destruct (body s x) as [e|s1]; simpl; [reflexivity | apply IH].
Qed.

(** The loop over the corpus writes one slot of [results] per document. *)
Lemma score_docs_ok bm queryTokens docs : forall (pre rest post : list Result.t),
  length rest = length docs ->
  (forall i doc, docs !! i = Some doc ->
     docLengths bm !! (length pre + i)%nat = Some (length doc)) ->
  (forall doc token, doc ∈ docs -> token ∈ queryTokens -> is_Some (idf bm !! token) ->
     avgdl bm <> 0%R /\ denominator bm (length doc) (term_count token doc) <> 0%R) ->
  foldM (score_doc bm queryTokens) (length pre, pre ++ rest ++ post) docs =
  inr ((length pre + length docs)%nat,
       pre ++ imap (fun i doc => Result.mk (length pre + i) (doc_score bm queryTokens doc)) docs
           ++ post).
Proof.
  induction docs as [|doc docs IH]; intros pre rest post Hlen Hdl Hsafe.
  - destruct rest; [|discriminate]. simpl. rewrite Nat.add_0_r. reflexivity.
  - destruct rest as [|r rest]; [discriminate|].
    change ((r :: rest) ++ post) with (r :: (rest ++ post)).
    simpl foldM. unfold score_doc at 1.
    rewrite <- (Nat.add_0_r (length pre)) at 1.
    rewrite (Hdl 0%nat doc eq_refl).
    rewrite foldM_add_term_ok
      by (intros token Ht; apply Hsafe; [left | exact Ht]).
    simpl mbind. unfold mbind, exec_bind.
    assert (Hlt : (length pre <? length (pre ++ r :: rest ++ post))%nat = true).
    { apply Nat.ltb_lt. rewrite !length_app. simpl. lia. }
    rewrite Hlt. unfold mret, exec_ret.
    rewrite insert_app_r_alt by lia. rewrite Nat.sub_diag. simpl insert.
    change (<[0%nat:=?x]> (r :: rest ++ post)) with (x :: rest ++ post).
    replace (pre ++ Result.mk (length pre) _ :: rest ++ post)
      with ((pre ++ [Result.mk (length pre)
                       (fold_left (fun score token =>
                          (score + contribution bm (length doc) (term_count token doc) token)%R)
                          queryTokens 0%R)]) ++ rest ++ post)
      by (rewrite <- app_assoc; reflexivity).
    replace (S (length pre)) with (length (pre ++ [Result.mk (length pre)
                       (fold_left (fun score token =>
                          (score + contribution bm (length doc) (term_count token doc) token)%R)
                          queryTokens 0%R)]))
      by (rewrite length_app; simpl; lia).
    rewrite IH.
    + rewrite length_app. simpl length. f_equal. f_equal; [lia|].
      rewrite <- app_assoc. f_equal. simpl. rewrite Nat.add_0_r. f_equal.
      f_equal. apply imap_ext. intros i d _. simpl. f_equal. lia.
    + simpl in Hlen. lia.
    + intros i d Hi. rewrite length_app. simpl.
      replace (length pre + 1 + i)%nat with (length pre + S i)%nat by lia.
      apply Hdl. exact Hi.
    + intros d token Hd. apply Hsafe. right. exact Hd.
Qed.

Lemma Score_ok bm query :
  consistent bm -> divisions_defined bm (Tokenize query) ->
  Score bm query =
  inr (imap (fun i doc => Result.mk i (doc_score bm (Tokenize query) doc)) (corpus bm)).
Proof.
  intros [Hdl Hn] Hsafe. unfold Score.
  pose proof (score_docs_ok bm (Tokenize query) (corpus bm) []
                (replicate (N bm) (Result.mk 0 0%R)) []) as H.
  simpl in H. rewrite !app_nil_r in H. rewrite H; [reflexivity | | | exact Hsafe].
  - rewrite length_replicate. exact Hn.
  - intros i doc Hi. rewrite Hdl. rewrite list_lookup_fmap, Hi. reflexivity.
Qed.

End Score.

(** ** Engines made by [New] and [Fit] *)

Section Fitted.

Import bm25.

Lemma fold_left_add_acc l : forall a, fold_left Nat.add l a = (a + fold_left Nat.add l 0)%nat.
Proof.
  induction l as [|x l IH]; intros a; simpl; [lia|].
  rewrite (IH (a + x)%nat), (IH x). lia.
Qed.

Lemma length_le_total (doc : list string) corpus :
  doc ∈ corpus ->
  (length doc <= fold_left Nat.add (List.map (@length string) corpus) 0)%nat.
Proof.
  induction corpus as [|d corpus IH]; intros H; [inversion H|].
  simpl. rewrite fold_left_add_acc.
  apply elem_of_cons in H as [->|H]; [lia|]. apply IH in H. lia.
Qed.

Lemma New_consistent k1 b : consistent (New k1 b).
Proof. split; reflexivity. Qed.

Lemma Fit_New_consistent k1 b documents : consistent (Fit (New k1 b) documents).
Proof.
  destruct documents as [|d documents]; [split; reflexivity|].
  split; [reflexivity|]. simpl. rewrite length_map. reflexivity.
Qed.

Lemma Fit_New_corpus k1 b documents :
  corpus (Fit (New k1 b) documents) = List.map Tokenize documents.
Proof. destruct documents; reflexivity. Qed.

Lemma Fit_New_params k1 b documents :
  bm25.k1 (Fit (New k1 b) documents) = k1 /\ bm25.b (Fit (New k1 b) documents) = b.
Proof. destruct documents; split; reflexivity. Qed.

Lemma Fit_New_nil k1 b : Fit (New k1 b) [] = New k1 b.
Proof. reflexivity. Qed.

Lemma Fit_New_avgdl k1 b d documents :
  avgdl (Fit (New k1 b) (d :: documents)) =
  (INR (fold_left Nat.add (List.map (@length string) (List.map Tokenize (d :: documents))) 0%nat)
   / INR (length (d :: documents)))%R.
Proof. reflexivity. Qed.

(** A term of the index occurs in some document, which is then not empty. *)
Lemma Fit_New_idf_doc k1 b documents token :
  is_Some (idf (Fit (New k1 b) documents) !! token) ->
  exists doc, doc ∈ List.map Tokenize documents /\ token ∈ doc.
Proof.
  destruct documents as [|d documents].
  - intros [v Hv]. rewrite Fit_New_nil in Hv. simpl in Hv.
    rewrite lookup_empty in Hv. discriminate.
  - rewrite Fit_New_idf by discriminate.
    destruct (decide _) as [Hz|Hz]; [intros [v Hv]; discriminate|]. intros _.
    apply doc_count_pos. rewrite doc_count_Tokenize. lia.
Qed.

(** If the index has a term, the average document length is positive. *)
Lemma Fit_New_avgdl_pos k1 b documents token :
  is_Some (idf (Fit (New k1 b) documents) !! token) ->
  (0 < avgdl (Fit (New k1 b) documents))%R.
Proof.
  intros Hsome. destruct (Fit_New_idf_doc _ _ _ _ Hsome) as (doc & Hdoc & Htok).
  destruct documents as [|d documents]; [inversion Hdoc|].
  rewrite Fit_New_avgdl.
  apply length_le_total in Hdoc.
  assert (0 < length doc)%nat by (destruct doc; [inversion Htok | simpl; lia]).
  apply Rdiv_lt_0_compat.
  - apply lt_0_INR. lia.
  - apply lt_0_INR. simpl. lia.
Qed.

Lemma Fit_New_idf_pos k1 b documents token v :
  idf (Fit (New k1 b) documents) !! token = Some v -> (0 < v)%R.
Proof.
  destruct documents as [|d documents].
  - rewrite Fit_New_nil. simpl. rewrite lookup_empty. discriminate.
  - rewrite Fit_New_idf by discriminate.
    destruct (decide _); [discriminate|]. intros [= <-].
    apply spec_idf_pos, doc_frequency_le.
Qed.

(** The denominator is positive for [0 < k1], [0 <= b < 1]. *)
Lemma denominator_pos bm len tf :
  params_ok (k1 bm) (b bm) -> (0 < avgdl bm)%R -> (0 < denominator bm len tf)%R.
Proof.
  intros (Hk & Hb0 & Hb1) Ha. unfold denominator.
  pose proof (pos_INR tf). pose proof (pos_INR len).
  assert (0 <= b bm * INR len / avgdl bm)%R.
  { apply Rle_mult_inv_pos; [|exact Ha]. apply Rmult_le_pos; assumption. }
  assert (0 < k1 bm * (1 - b bm + b bm * INR len / avgdl bm))%R; [|lra].
  apply Rmult_lt_0_compat; lra.
Qed.

(** The denominator is positive for [b = 1] too when the document is not empty. *)
Lemma denominator_pos_nonempty bm len tf :
  (0 < k1 bm)%R -> (0 <= b bm <= 1)%R -> (0 < avgdl bm)%R -> (0 < len)%nat ->
  (0 < denominator bm len tf)%R.
Proof.
  intros Hk [Hb0 Hb1] Ha Hlen. unfold denominator.
  pose proof (pos_INR tf). apply lt_0_INR in Hlen.
  assert (Hq : (0 < INR len / avgdl bm)%R) by (apply Rdiv_lt_0_compat; assumption).
  assert (0 < 1 - b bm + b bm * INR len / avgdl bm)%R.
  { unfold Rdiv in *. rewrite Rmult_assoc.
    destruct (Rle_lt_or_eq_dec _ _ Hb1) as [Hlt|Heq].
    - assert (0 <= b bm * (INR len * / avgdl bm))%R by (apply Rmult_le_pos; lra). lra.
    - rewrite Heq. lra. }
  assert (0 < k1 bm * (1 - b bm + b bm * INR len / avgdl bm))%R; [|lra].
  apply Rmult_lt_0_compat; assumption.
Qed.

Lemma Fit_New_divisions_defined k1 b documents queryTokens :
  params_ok k1 b -> divisions_defined (Fit (New k1 b) documents) queryTokens.
Proof.
  intros Hp doc token _ _ Hsome.
  pose proof (Fit_New_avgdl_pos _ _ _ _ Hsome) as Ha.
  split; [lra|].
  assert (0 < denominator (Fit (New k1 b) documents) (length doc) (term_count token doc))%R; [|lra].
  apply denominator_pos; [|exact Ha].
  destruct (Fit_New_params k1 b documents) as [-> ->]. exact Hp.
Qed.

(** [Score] on an engine fitted once, for [0 < k1] and [0 <= b < 1]. *)
Lemma Score_Fit_New k1 b documents query :
  params_ok k1 b ->
  Score (Fit (New k1 b) documents) query =
  inr (imap (fun i doc =>
               Result.mk i (doc_score (Fit (New k1 b) documents) (Tokenize query) doc))
            (List.map Tokenize documents)).
Proof.
  intros Hp. rewrite Score_ok.
  - rewrite Fit_New_corpus. reflexivity.
  - apply Fit_New_consistent.
  - apply Fit_New_divisions_defined. exact Hp.
Qed.

Lemma contribution_nonneg k1 b documents len tf token :
  params_ok k1 b -> (0 <= contribution (Fit (New k1 b) documents) len tf token)%R.
Proof.
  intros Hp. unfold contribution.
  destruct (idf _ !! token) as [v|] eqn:E; [|lra].
  pose proof (Fit_New_idf_pos _ _ _ _ _ E) as Hv.
  assert (Ha : (0 < avgdl (Fit (New k1 b) documents))%R)
    by (eapply Fit_New_avgdl_pos; eauto).
  assert (Hd : (0 < denominator (Fit (New k1 b) documents) len tf)%R).
  { apply denominator_pos; [|exact Ha].
    destruct (Fit_New_params k1 b documents) as [-> ->]. exact Hp. }
  unfold denominator in Hd.
  apply Rle_mult_inv_pos; [|exact Hd].
  destruct (Fit_New_params k1 b documents) as [Hk _]. rewrite Hk in *.
  destruct Hp as (Hk1 & _). pose proof (pos_INR tf).
  apply Rmult_le_pos; [lra|]. apply Rmult_le_pos; lra.
Qed.

Lemma fold_left_sum_nonneg {A} (f : A -> R) (l : list A) : forall s,
  (0 <= s)%R -> (forall x, x ∈ l -> (0 <= f x)%R) ->
  (0 <= fold_left (fun score x => (score + f x)%R) l s)%R.
Proof.
  induction l as [|x l IH]; intros s Hs Hf; simpl; [exact Hs|].
  apply IH.
  - pose proof (Hf x ltac:(left)). lra.
  - intros y Hy. apply Hf. right. exact Hy.
Qed.

Lemma doc_score_nonneg k1 b documents queryTokens doc :
  params_ok k1 b -> (0 <= doc_score (Fit (New k1 b) documents) queryTokens doc)%R.
Proof.
  intros Hp. unfold doc_score.
  apply (fold_left_sum_nonneg
           (fun token => contribution (Fit (New k1 b) documents) (length doc)
                           (term_count token doc) token)); [lra|].
  intros token _. apply contribution_nonneg. exact Hp.
Qed.

End Fitted.

(** ** Claims on the ranking engine *)





Lemma score_doc_no_slot bm queryTokens idx results doc :
  bm25.docLengths bm !! idx = Some (length doc) ->
  (forall token, token ∈ queryTokens -> is_Some (bm25.idf bm !! token) ->
     bm25.avgdl bm <> 0%R /\ denominator bm (length doc) (term_count token doc) <> 0%R) ->
  (length results <= idx)%nat ->
  bm25.score_doc bm queryTokens (idx, results) doc = inl IndexOutOfRange.
Proof.
  intros Hl Hsafe Hlen. unfold bm25.score_doc. rewrite Hl.
  rewrite foldM_add_term_ok by exact Hsafe. cbn [mbind exec_bind].
  destruct (idx <? length results)%nat eqn:E; [apply Nat.ltb_lt in E; lia | reflexivity].
Qed.

(** [Fit] on no document after a fit on some: [N] is 0, the corpus stays,
    and [Score] has no slot for the score of the first document. *)
Lemma Score_empty_refit (k1 b : R) (documents : list string) (query : string) :
  params_ok k1 b ->
  documents <> [] ->
  bm25.N (bm25.Fit (bm25.Fit (bm25.New k1 b) documents) []) = 0%nat /\
  bm25.corpus (bm25.Fit (bm25.Fit (bm25.New k1 b) documents) [])
    = List.map bm25.Tokenize documents /\
  bm25.Score (bm25.Fit (bm25.Fit (bm25.New k1 b) documents) []) query
  = inl IndexOutOfRange.
Proof.
  intros Hp Hne. destruct documents as [|d documents]; [congruence|].
  split; [reflexivity|]. split; [reflexivity|].
  set (bm0 := bm25.Fit (bm25.New k1 b) (d :: documents)).
  set (bm1 := bm25.Fit bm0 []).
  assert (Hc : bm25.corpus bm1 = bm25.Tokenize d :: List.map bm25.Tokenize documents)
    by reflexivity.
  assert (Hn : bm25.N bm1 = 0%nat) by reflexivity.
  assert (Hl : bm25.docLengths bm1 !! 0%nat = Some (length (bm25.Tokenize d))) by reflexivity.
  assert (Hsafe : forall token, is_Some (bm25.idf bm1 !! token) ->
            bm25.avgdl bm1 <> 0%R /\
            denominator bm1 (length (bm25.Tokenize d))
                        (term_count token (bm25.Tokenize d)) <> 0%R).
  { intros token Hsome.
    change (bm25.idf bm1) with (bm25.idf bm0) in Hsome.
    assert (Ha : (0 < bm25.avgdl bm0)%R) by (eapply Fit_New_avgdl_pos; exact Hsome).
    change (bm25.avgdl bm1) with (bm25.avgdl bm0). split; [lra|].
    assert (0 < denominator bm1 (length (bm25.Tokenize d))
                  (term_count token (bm25.Tokenize d)))%R; [|lra].
    apply denominator_pos; [exact Hp | exact Ha]. }
  clearbody bm1. unfold bm25.Score. rewrite Hc, Hn.
  cbn [replicate foldM]. rewrite score_doc_no_slot; [reflexivity | exact Hl | | simpl; lia].
  intros token _. apply Hsafe.
Qed.

(** C9 (as stated, refuted). An engine that was fitted on a document and then
    on none is not empty: its corpus and [avgdl] are those of the first fit,
    [N] is 0, and [Score] panics instead of returning the empty slice. *)
Lemma C9_refit_counterexample :
  bm25.corpus (bm25.Fit (bm25.Fit (bm25.New 1.5 0.75) ["alpha beta gamma"]) [])
    = [["alpha"; "beta"; "gamma"]] /\
  bm25.avgdl (bm25.Fit (bm25.Fit (bm25.New 1.5 0.75) ["alpha beta gamma"]) []) <> 0%R /\
  bm25.Score (bm25.Fit (bm25.Fit (bm25.New 1.5 0.75) ["alpha beta gamma"]) []) "alpha"
  = inl IndexOutOfRange.
Proof.
  split; [reflexivity|]. split.
  - change (bm25.avgdl (bm25.Fit (bm25.Fit (bm25.New 1.5 0.75) ["alpha beta gamma"]) []))
      with (INR 3 / INR 1)%R.
    simpl. lra.
  - apply (Score_empty_refit 1.5 0.75 ["alpha beta gamma"] "alpha").
    + unfold params_ok. lra.
    + discriminate.
Qed.

(** C9 (amended). [Fit] on no document leaves an engine made by [New], and
    not fitted before, empty, with [avgdl = 0]; [Score] on an engine that was
    never fitted, or whose only fit was on no document, returns the empty
    slice and does not fail. *)
Theorem C9_empty_fit_and_score (k1 b : R) (query : string) :
  bm25.avgdl (bm25.Fit (bm25.New k1 b) []) = 0%R /\
  bm25.N (bm25.Fit (bm25.New k1 b) []) = 0%nat /\
  bm25.corpus (bm25.Fit (bm25.New k1 b) []) = [] /\
  bm25.idf (bm25.Fit (bm25.New k1 b) []) = ∅ /\
  bm25.docFreqs (bm25.Fit (bm25.New k1 b) []) = ∅ /\
  bm25.Score (bm25.New k1 b) query = inr [] /\
  bm25.Score (bm25.Fit (bm25.New k1 b) []) query = inr [].
Proof. repeat split; reflexivity. Qed.

Lemma doc_score_no_vocabulary bm queryTokens doc :
  (forall token, token ∈ queryTokens -> bm25.idf bm !! token = None) ->
  doc_score bm queryTokens doc = 0%R.
Proof.
  unfold doc_score. intros Hnone.
  assert (H : forall s,
             fold_left (fun score token =>
                          (score + contribution bm (length doc) (term_count token doc) token)%R)
                       queryTokens s = s); [|apply H].
  induction queryTokens as [|token queryTokens IH]; intros s; simpl; [reflexivity|].
  rewrite IH by (intros t Ht; apply Hnone; right; exact Ht).
  unfold contribution. rewrite (Hnone token) by left. lra.
Qed.

(** With [b = 1], a fitted engine whose corpus has an empty document divides
    0 by 0 when it scores that document for a query token of the vocabulary:
    the score is NaN, although [avgdl] is not zero. *)
Lemma b_one_zero_denominator :
  bm25.avgdl (bm25.Fit (bm25.New 1.5 1) ["alpha beta gamma"; ""]) <> 0%R /\
  bm25.Score (bm25.Fit (bm25.New 1.5 1) ["alpha beta gamma"; ""]) "alpha"
  = inl (DivByZero 0).
Proof.
  set (bm := bm25.Fit (bm25.New 1.5 1) ["alpha beta gamma"; ""]).
  assert (Hav : bm25.avgdl bm = (INR 3 / INR 2)%R) by reflexivity.
  assert (Hav0 : bm25.avgdl bm <> 0%R) by (rewrite Hav; simpl; lra).
  assert (Hidf : bm25.idf bm !! "alpha" = Some (spec_idf 2 1)).
  { unfold bm. rewrite Fit_New_idf by discriminate. reflexivity. }
  assert (Hq : bm25.Tokenize "alpha" = ["alpha"]) by reflexivity.
  assert (Hc : bm25.corpus bm = [["alpha"; "beta"; "gamma"]] ++ [[]]) by reflexivity.
  assert (Hn : bm25.N bm = 2%nat) by reflexivity.
  assert (Hl0 : bm25.docLengths bm !! 0%nat = Some 3%nat) by reflexivity.
  assert (Hl1 : bm25.docLengths bm !! 1%nat = Some 0%nat) by reflexivity.
  assert (Hb : bm25.b bm = 1%R) by reflexivity.
  assert (Hk : bm25.k1 bm = 1.5%R) by reflexivity.
  split; [exact Hav0|].
  clearbody bm.
  unfold bm25.Score. rewrite Hq, Hc, Hn, foldM_app.
  pose proof (score_docs_ok bm ["alpha"] [["alpha"; "beta"; "gamma"]] []
                [bm25.Result.mk 0 0%R] [bm25.Result.mk 0 0%R]) as H1.
  change (foldM (bm25.score_doc bm ["alpha"])
            (0%nat, replicate 2 (bm25.Result.mk 0 0%R)) [["alpha"; "beta"; "gamma"]])
    with (foldM (bm25.score_doc bm ["alpha"])
            (length (@nil bm25.Result.t),
             [] ++ [bm25.Result.mk 0 0%R] ++ [bm25.Result.mk 0 0%R])
            [["alpha"; "beta"; "gamma"]]).
  rewrite H1; clear H1.
  - cbn [mbind exec_bind foldM length imap app Nat.add].
    unfold bm25.score_doc. rewrite Hl1.
    cbn [foldM]. unfold bm25.add_term. rewrite Hidf, Hb, Hk.
    rewrite fdiv_ok by exact Hav0. cbn [mbind exec_bind].
    change (default 0%nat (bm25.term_freqs [] !! "alpha")) with 0%nat.
    match goal with
    | |- context [fdiv ?x ?y] =>
        replace y with 0%R by (cbn [INR]; lra); replace x with 0%R by (cbn [INR]; lra)
    end.
    rewrite fdiv_zero. reflexivity.
  - reflexivity.
  - intros [|i] doc Hi; [|destruct i; discriminate Hi].
    injection Hi as <-. exact Hl0.
  - intros doc token Hdoc _ _. split; [exact Hav0|].
    apply list_elem_of_singleton in Hdoc as ->.
    assert (0 < denominator bm (length ["alpha"; "beta"; "gamma"])
                  (term_count token ["alpha"; "beta"; "gamma"]))%R; [|lra].
    apply denominator_pos_nonempty.
    + rewrite Hk. lra.
    + rewrite Hb. lra.
    + rewrite Hav. simpl. lra.
    + simpl. lia.
Qed.

(** [Fit] on an engine that was fitted before keeps the terms of the first
    fit in the index: after a second fit on a document without tokens the
    index still has "alpha", [avgdl] is 0, and [Score] divides 0 by 0 in
    [docLen/avgdl]. *)
Lemma refit_avgdl_zero :
  is_Some (bm25.idf (bm25.Fit (bm25.Fit (bm25.New 1.5 0.75) ["alpha beta gamma"]) [""])
             !! "alpha") /\
  bm25.avgdl (bm25.Fit (bm25.Fit (bm25.New 1.5 0.75) ["alpha beta gamma"]) [""]) = 0%R /\
  bm25.Score (bm25.Fit (bm25.Fit (bm25.New 1.5 0.75) ["alpha beta gamma"]) [""]) "alpha"
  = inl (DivByZero 0).
Proof.
  set (bm := bm25.Fit (bm25.Fit (bm25.New 1.5 0.75) ["alpha beta gamma"]) [""]).
  assert (Hidf : bm25.idf bm !! "alpha" = Some (bm25.idf_value 1 1)).
  { unfold bm. rewrite Fit_idf, idf_fold_lookup, Fit_docFreqs, docFreqs_lookup.
    rewrite Fit_New_docFreqs by discriminate. reflexivity. }
  assert (Hav : bm25.avgdl bm = 0%R).
  { change (bm25.avgdl bm) with (INR 0 / INR 1)%R. simpl. lra. }
  assert (Hq : bm25.Tokenize "alpha" = ["alpha"]) by reflexivity.
  assert (Hc : bm25.corpus bm = [[]]) by reflexivity.
  assert (Hn : bm25.N bm = 1%nat) by reflexivity.
  assert (Hl : bm25.docLengths bm !! 0%nat = Some 0%nat) by reflexivity.
  assert (Hb : bm25.b bm = 0.75%R) by reflexivity.
  split; [rewrite Hidf; eauto|]. split; [exact Hav|].
  clearbody bm.
  unfold bm25.Score. rewrite Hq, Hc, Hn.
  cbn [replicate foldM]. unfold bm25.score_doc. rewrite Hl.
  cbn [foldM]. unfold bm25.add_term. rewrite Hidf, Hav, Hb.
  match goal with
  | |- context [fdiv ?x 0%R] => replace x with 0%R by (cbn [INR]; lra)
  end.
  rewrite fdiv_zero. reflexivity.
Qed.

(** C10 (as stated, refuted), both ways: the division by the denominator with
    [b = 1] above, and the division [docLen/avgdl] with [avgdl = 0] in an
    engine that was fitted before. *)
Lemma C10_division_counterexample :
  (bm25.avgdl (bm25.Fit (bm25.New 1.5 1) ["alpha beta gamma"; ""]) <> 0%R /\
   bm25.Score (bm25.Fit (bm25.New 1.5 1) ["alpha beta gamma"; ""]) "alpha"
   = inl (DivByZero 0)) /\
  (is_Some (bm25.idf (bm25.Fit (bm25.Fit (bm25.New 1.5 0.75) ["alpha beta gamma"]) [""])
              !! "alpha") /\
   bm25.avgdl (bm25.Fit (bm25.Fit (bm25.New 1.5 0.75) ["alpha beta gamma"]) [""]) = 0%R /\
   bm25.Score (bm25.Fit (bm25.Fit (bm25.New 1.5 0.75) ["alpha beta gamma"]) [""]) "alpha"
   = inl (DivByZero 0)).
Proof. split; [exact b_one_zero_denominator | exact refit_avgdl_zero]. Qed.

(** C10 (amended). For an engine made by [New] and fitted once: a term of the
    index occurs in a fitted document, which has at least one token, so that
    [avgdl > 0] and the division [docLen/avgdl], made only for the query
    tokens of the index, has a divisor that is not zero; when every document
    tokenizes to the empty sequence, no division is made and every score is
    0; and for [0 < k1] and [0 <= b < 1] (the engine [Search] makes has 1.5
    and 0.75) [Score] divides by zero nowhere and returns one score per
    document, none negative. *)
Theorem C10_score_defined (k1 b : R) (documents : list string) (query : string) :
  (forall token, is_Some (bm25.idf (bm25.Fit (bm25.New k1 b) documents) !! token) ->
     (exists doc, doc ∈ bm25.corpus (bm25.Fit (bm25.New k1 b) documents) /\
                  token ∈ doc /\ (0 < length doc)%nat) /\
     (0 < bm25.avgdl (bm25.Fit (bm25.New k1 b) documents))%R) /\
  ((forall d, d ∈ documents -> bm25.Tokenize d = []) ->
   bm25.Score (bm25.Fit (bm25.New k1 b) documents) query =
   inr (imap (fun i _ => bm25.Result.mk i 0%R) documents)) /\
  (params_ok k1 b ->
   exists results,
     bm25.Score (bm25.Fit (bm25.New k1 b) documents) query = inr results /\
     length results = length documents /\
     forall r, r ∈ results -> (0 <= bm25.Result.Score r)%R).
Proof.
  split; [|split].
  - intros token Hsome. split; [|eapply Fit_New_avgdl_pos; exact Hsome].
    destruct (Fit_New_idf_doc _ _ _ _ Hsome) as (doc & Hdoc & Htok).
    exists doc. rewrite Fit_New_corpus. split; [exact Hdoc|]. split; [exact Htok|].
    destruct doc; [inversion Htok | simpl; lia].
  - intros Hempty.
    assert (Hnone : forall token,
              bm25.idf (bm25.Fit (bm25.New k1 b) documents) !! token = None).
    { intros token.
      destruct (bm25.idf _ !! token) as [v|] eqn:Ev; [|reflexivity].
      destruct (Fit_New_idf_doc k1 b documents token) as (doc & Hdoc & Htok); [eauto|].
      apply list_elem_of_fmap in Hdoc as (d' & -> & Hd').
      rewrite (Hempty d' Hd') in Htok. inversion Htok. }
    rewrite Score_ok.
    + rewrite Fit_New_corpus. f_equal. apply list_eq. intros i.
      rewrite !list_lookup_imap, list_lookup_fmap.
      destruct (documents !! i) as [d|] eqn:E; simpl; [|reflexivity].
      f_equal. f_equal. apply doc_score_no_vocabulary.
      intros token _. apply Hnone.
    + apply Fit_New_consistent.
    + intros doc token _ _ [v Hv]. rewrite Hnone in Hv. discriminate.
  - intros Hp. eexists. split; [apply Score_Fit_New; exact Hp|]. split.
    + rewrite length_imap, length_map. reflexivity.
    + intros r Hr. apply elem_of_lookup_imap in Hr as (i & doc & -> & _). simpl.
      apply doc_score_nonneg. exact Hp.
Qed.

(** The engine of [Search] on a record with text and a record without. *)
Lemma C10_score_defined_witness :
  (forall token,
     is_Some (bm25.idf (bm25.Fit (bm25.New 1.5 0.75) ["alpha beta gamma"; ""]) !! token) ->
     (exists doc, doc ∈ bm25.corpus (bm25.Fit (bm25.New 1.5 0.75) ["alpha beta gamma"; ""]) /\
                  token ∈ doc /\ (0 < length doc)%nat) /\
     (0 < bm25.avgdl (bm25.Fit (bm25.New 1.5 0.75) ["alpha beta gamma"; ""]))%R) /\
  (exists results,
     bm25.Score (bm25.Fit (bm25.New 1.5 0.75) ["alpha beta gamma"; ""]) "alpha" = inr results /\
     length results = length ["alpha beta gamma"; ""] /\
     forall r, r ∈ results -> (0 <= bm25.Result.Score r)%R).
Proof.
  destruct (C10_score_defined 1.5 0.75 ["alpha beta gamma"; ""] "alpha")
    as (Hindex & _ & Hscore).
  split; [exact Hindex|]. apply Hscore. unfold params_ok. lra.
Defined.

(** ** The domain search *)

Section Search.

Import search.

Lemma rank_ok env config data query :
  rank env config data query =
  inr (sort_Slice env
         (imap (fun i doc =>
                  bm25.Result.mk i (doc_score (engine_of config data) (bm25.Tokenize query) doc))
               (List.map bm25.Tokenize (List.map (document config) data)))).
Proof.
  unfold rank, engine_of. rewrite Score_Fit_New by (unfold params_ok; lra). reflexivity.
Qed.

Lemma rank_Score env config data query :
  exists scored,
    bm25.Score (engine_of config data) query = inr scored /\
    rank env config data query = inr (sort_Slice env scored) /\
    length scored = length data /\
    (forall i r, scored !! i = Some r -> bm25.Result.Index r = i) /\
    (forall r, r ∈ scored -> (0 <= bm25.Result.Score r)%R).
Proof.
  eexists. split; [apply Score_Fit_New; unfold params_ok; lra|].
  split; [apply rank_ok|]. split; [|split].
  - rewrite length_imap, !length_map. reflexivity.
  - intros i r Hi. rewrite list_lookup_imap in Hi.
    destruct (_ !! i); simpl in Hi; [|discriminate]. injection Hi as <-. reflexivity.
  - intros r Hr. apply elem_of_lookup_imap in Hr as (i & doc & -> & _). simpl.
    apply doc_score_nonneg. unfold params_ok; lra.
Qed.

(** The loop over [ranked], when every index is one of a record. *)
Lemma top_results_accepted config data maxResults ranked : forall results,
  (forall r, r ∈ ranked -> (bm25.Result.Index r < length data)%nat) ->
  top_results config data maxResults ranked results =
  inr (results ++ List.map (hit_row config data) (accepted maxResults (length results) ranked)).
Proof.
  induction ranked as [|r ranked IH]; intros results Hidx; simpl.
  - rewrite app_nil_r. reflexivity.
  - destruct (Rle_dec (bm25.Result.Score r) 0); [rewrite app_nil_r; reflexivity|].
    destruct (Z.of_nat (length results) >=? maxResults)%Z; [rewrite app_nil_r; reflexivity|].
    destruct (data !! bm25.Result.Index r) as [rw|] eqn:E.
    + rewrite IH by (intros r' Hr'; apply Hidx; right; exact Hr').
      rewrite length_app. simpl length. rewrite Nat.add_1_r.
      rewrite <- app_assoc. simpl. unfold hit_row at 2. rewrite E. reflexivity.
    + apply lookup_ge_None in E. specialize (Hidx r ltac:(left)). lia.
Qed.

Lemma accepted_prefix maxResults ranked : forall n,
  exists rest, ranked = accepted maxResults n ranked ++ rest.
Proof.
  induction ranked as [|r ranked IH]; intros n; simpl; [exists []; reflexivity|].
  destruct (Rle_dec _ 0); [eexists; reflexivity|].
  destruct (_ >=? _)%Z; [eexists; reflexivity|].
  destruct (IH (S n)) as [rest Hrest]. exists rest. simpl. f_equal. exact Hrest.
Qed.

Lemma accepted_positive maxResults ranked : forall n r,
  r ∈ accepted maxResults n ranked -> (0 < bm25.Result.Score r)%R.
Proof.
  induction ranked as [|x ranked IH]; intros n r; simpl; [inversion 1|].
  destruct (Rle_dec _ 0) as [|Hpos]; [inversion 1|].
  destruct (_ >=? _)%Z; [inversion 1|].
  intros H. apply elem_of_cons in H as [->|H]; [lra | eapply IH; exact H].
Qed.

Lemma accepted_length maxResults ranked : forall n,
  (Z.of_nat n <= maxResults)%Z ->
  (Z.of_nat (n + length (accepted maxResults n ranked)) <= maxResults)%Z.
Proof.
  induction ranked as [|x ranked IH]; intros n Hn; simpl; [lia|].
  destruct (Rle_dec _ 0); simpl; [lia|].
  destruct (Z.of_nat n >=? maxResults)%Z eqn:E; simpl; [lia|].
  rewrite Z.geb_leb in E. apply Z.leb_gt in E.
  specialize (IH (S n) ltac:(lia)). lia.
Qed.

Lemma positive_count_app l1 l2 :
  positive_count (l1 ++ l2) = (positive_count l1 + positive_count l2)%nat.
Proof. unfold positive_count. rewrite filter_app, length_app. reflexivity. Qed.

Lemma positive_count_all l :
  (forall r, r ∈ l -> (0 < bm25.Result.Score r)%R) -> positive_count l = length l.
Proof.
  unfold positive_count. induction l as [|x l IH]; intros H; [reflexivity|].
  rewrite filter_cons, decide_True by (apply H; left). simpl.
  rewrite IH; [reflexivity|]. intros r Hr. apply H. right. exact Hr.
Qed.

Lemma positive_count_perm l1 l2 : l1 ≡ₚ l2 -> positive_count l1 = positive_count l2.
Proof. intros H. unfold positive_count. rewrite H. reflexivity. Qed.

Lemma accepted_le_positive maxResults n ranked :
  (length (accepted maxResults n ranked) <= positive_count ranked)%nat.
Proof.
  destruct (accepted_prefix maxResults ranked n) as [rest Hrest].
  rewrite Hrest at 2. rewrite positive_count_app.
  rewrite positive_count_all by apply accepted_positive. lia.
Qed.

(** What [Search] does once the domain is known and its file is read. *)
Lemma Search_eval env dataDir query domain maxResults config data :
  sort_Slice env (imap (fun i doc =>
                  bm25.Result.mk i (doc_score (engine_of config data) (bm25.Tokenize query) doc))
               (List.map bm25.Tokenize (List.map (document config) data)))
  ≡ₚ imap (fun i doc =>
                  bm25.Result.mk i (doc_score (engine_of config data) (bm25.Tokenize query) doc))
               (List.map bm25.Tokenize (List.map (document config) data)) ->
  DomainConfigs !! resolve env query domain = Some config ->
  loadCSV env (filepath_Join env dataDir (Config.File config)) = inr data ->
  Search env dataDir query domain maxResults =
  if (maxResults <? 0)%Z then Panic MakeSliceCap
  else
    let hits :=
      accepted maxResults 0
        (sort_Slice env
           (imap (fun i doc =>
                    bm25.Result.mk i
                      (doc_score (engine_of config data) (bm25.Tokenize query) doc))
                 (List.map bm25.Tokenize (List.map (document config) data)))) in
    Ok (Result.mk (resolve env query domain) query (Config.File config)
          (length hits) (List.map (hit_row config data) hits)).
Proof.
  intros Hperm Hcfg Hload. unfold Search. fold (resolve env query domain).
  rewrite Hcfg, Hload, rank_ok.
  destruct (maxResults <? 0)%Z; [reflexivity|].
  rewrite top_results_accepted.
  - simpl. rewrite length_map. reflexivity.
  - intros r Hr. rewrite Hperm in Hr.
    apply elem_of_lookup_imap in Hr as (i & doc & -> & Hi). simpl.
    apply lookup_lt_Some in Hi. rewrite !length_map in Hi. exact Hi.
Qed.

End Search.

(** ** The two sorts meet the contract of [sort.Slice] *)

Section Sorts.

Import search.

Lemma insert_desc_perm x l : insert_desc x l ≡ₚ x :: l.
Proof.
  induction l as [|y l IH]; simpl; [reflexivity|].
  destruct (Rgt_dec _ _); [reflexivity|].
  rewrite IH. apply Permutation_swap.
Qed.

Lemma insert_desc_sorted x l : sorted_desc l -> sorted_desc (insert_desc x l).
Proof.
  unfold sorted_desc. induction l as [|y l IH]; simpl; intros Hs.
  - constructor; constructor.
  - inversion Hs as [|? ? Hs' Hy]; subst.
    destruct (Rgt_dec (bm25.Result.Score x) (bm25.Result.Score y)) as [Hgt|Hngt].
    + constructor; [exact Hs|]. constructor; [lra|].
      eapply List.Forall_impl; [|exact Hy]. intros z Hz. simpl in Hz. lra.
    + constructor; [apply IH; exact Hs'|].
      apply Forall_forall. intros z Hz.
      rewrite insert_desc_perm in Hz.
      apply elem_of_cons in Hz as [->|Hz]; [lra|].
      rewrite Forall_forall in Hy. apply Hy. exact Hz.
Qed.

Lemma insertion_sort_fold l : forall acc,
  sorted_desc acc ->
  fold_left (fun sorted x => insert_desc x sorted) l acc ≡ₚ acc ++ l /\
  sorted_desc (fold_left (fun sorted x => insert_desc x sorted) l acc).
Proof.
  induction l as [|x l IH]; intros acc Hacc; simpl.
  - rewrite app_nil_r. split; [reflexivity | exact Hacc].
  - destruct (IH (insert_desc x acc) (insert_desc_sorted x acc Hacc)) as [Hp Hs].
    split; [|exact Hs]. rewrite Hp, insert_desc_perm.
    rewrite (Permutation_middle acc l x). reflexivity.
Qed.

Lemma insertion_sort_ok : sort_ok insertion_sort.
Proof.
  intros l. unfold insertion_sort.
  destruct (insertion_sort_fold l []) as [Hp Hs]; [constructor|].
  split; [exact Hp | exact Hs].
Qed.

Lemma insert_perm_delete (x : bm25.Result.t) l : forall k p,
  l !! k = Some p -> p :: <[ k := x ]> l ≡ₚ x :: l.
Proof.
  induction l as [|y l IH]; intros k p Hk; [discriminate|].
  destruct k as [|k]; simpl in *.
  - injection Hk as ->. apply Permutation_swap.
  - rewrite Permutation_swap. rewrite (IH k p Hk). apply Permutation_swap.
Qed.

Lemma swap_front_perm k l : swap_front k l ≡ₚ l.
Proof.
  destruct l as [|x rest]; [reflexivity|]. destruct k as [|k]; [reflexivity|]. simpl.
  destruct (rest !! k) as [p|] eqn:E; [|reflexivity].
  apply insert_perm_delete. exact E.
Qed.

Lemma pivot_first_sort_ok : sort_ok pivot_first_sort.
Proof.
  intros l. unfold pivot_first_sort. destruct (length l <=? 12)%nat.
  - apply insertion_sort_ok.
  - destruct (insertion_sort_ok (swap_front (length l / 4 * 2) l)) as [Hp Hs].
    split; [|exact Hs]. rewrite Hp. apply swap_front_perm.
Qed.

Lemma example_env_ok sortSlice : sort_ok sortSlice -> Env_ok (example_env sortSlice).
Proof. intros H. split; [apply Permutation_refl | exact H]. Qed.

End Sorts.

(** ** A run of [Search] over the example record store *)

Section Example.

Import search.

Lemma contribution_tf_zero bm len token : contribution bm len 0 token = 0%R.
Proof.
  unfold contribution. destruct (bm25.idf bm !! token); [|reflexivity].
  simpl INR. unfold Rdiv. ring.
Qed.

Lemma contribution_pos k1 b documents len tf token :
  params_ok k1 b -> (0 < tf)%nat ->
  is_Some (bm25.idf (bm25.Fit (bm25.New k1 b) documents) !! token) ->
  (0 < contribution (bm25.Fit (bm25.New k1 b) documents) len tf token)%R.
Proof.
  intros Hp Htf [v Hv]. unfold contribution. rewrite Hv.
  pose proof (Fit_New_idf_pos _ _ _ _ _ Hv) as Hvpos.
  assert (Ha : (0 < bm25.avgdl (bm25.Fit (bm25.New k1 b) documents))%R)
    by (eapply Fit_New_avgdl_pos; eauto).
  assert (Hd : (0 < denominator (bm25.Fit (bm25.New k1 b) documents) len tf)%R).
  { apply denominator_pos; [|exact Ha].
    destruct (Fit_New_params k1 b documents) as [-> ->]. exact Hp. }
  unfold denominator in Hd.
  destruct (Fit_New_params k1 b documents) as [Hk _]. rewrite Hk in *.
  destruct Hp as (Hk1 & _). apply lt_0_INR in Htf.
  apply Rdiv_lt_0_compat; [|exact Hd].
  apply Rmult_lt_0_compat; [lra|]. apply Rmult_lt_0_compat; lra.
Qed.

Lemma accepted_cons_take m n r l :
  (0 < bm25.Result.Score r)%R -> (Z.of_nat n < m)%Z ->
  accepted m n (r :: l) = r :: accepted m (S n) l.
Proof.
  intros Hpos Hn. simpl. destruct (Rle_dec _ 0); [lra|].
  destruct (Z.of_nat n >=? m)%Z eqn:E; [|reflexivity].
  rewrite Z.geb_leb in E. apply Z.leb_le in E. lia.
Qed.

Lemma accepted_full m n l : (m <= Z.of_nat n)%Z -> accepted m n l = [].
Proof.
  intros Hn. destruct l as [|r l]; [reflexivity|]. simpl.
  destruct (Rle_dec _ 0); [reflexivity|].
  destruct (Z.of_nat n >=? m)%Z eqn:E; [reflexivity|].
  rewrite Z.geb_leb in E. apply Z.leb_gt in E. lia.
Qed.

Lemma accepted_cons_stop m n r l :
  (bm25.Result.Score r <= 0)%R -> accepted m n (r :: l) = [].
Proof. intros H. simpl. destruct (Rle_dec _ 0); [reflexivity | contradiction]. Qed.

Ltac resolve_Rgt :=
  match goal with
  | |- context [Rgt_dec ?a ?b] =>
      destruct (Rgt_dec a b); [try (exfalso; lra) | try (exfalso; lra)]
  end.

Lemma pivot_first_sort_example t :
  (0 < t)%R ->
  exists rest,
    pivot_first_sort (example_scored t) =
    bm25.Result.mk 6 t :: bm25.Result.mk 3 t :: bm25.Result.mk 1 0 :: rest.
Proof.
  intros Ht. unfold pivot_first_sort, example_scored.
  cbn [length Nat.leb Nat.div Nat.divmod fst Nat.mul Nat.add swap_front lookup
       list_lookup insert list_insert].
  unfold insertion_sort. cbn [fold_left].
  repeat (cbn [insert_desc bm25.Result.Score]; resolve_Rgt).
  eexists. reflexivity.
Qed.

Lemma insertion_sort_example t :
  (0 < t)%R ->
  exists rest,
    insertion_sort (example_scored t) =
    bm25.Result.mk 3 t :: bm25.Result.mk 6 t :: bm25.Result.mk 0 0 :: rest.
Proof.
  intros Ht. unfold insertion_sort, example_scored. cbn [fold_left].
  repeat (cbn [insert_desc bm25.Result.Score]; resolve_Rgt).
  eexists. reflexivity.
Qed.

Lemma example_config :
  forall sortSlice,
    DomainConfigs !! resolve (example_env sortSlice) "momentum" "indicator"
    = Some indicator_config.
Proof. intros sortSlice. reflexivity. Qed.

Lemma example_load sortSlice dataDir :
  loadCSV (example_env sortSlice)
          (filepath_Join (example_env sortSlice) dataDir (Config.File indicator_config))
  = inr example_data.
Proof. reflexivity. Qed.

(** The scores of the example: the records 3 and 6 have the same positive
    score, the others 0. *)
Lemma example_doc_scores :
  exists t : R, (0 < t)%R /\
    imap (fun i doc =>
            bm25.Result.mk i
              (doc_score (engine_of indicator_config example_data)
                         (bm25.Tokenize "momentum") doc))
         (List.map bm25.Tokenize (List.map (document indicator_config) example_data))
    = example_scored t.
Proof.
  unfold engine_of.
  assert (Hdocs : List.map (document indicator_config) example_data =
                  ["volume"; "volume"; "volume"; "momentum"; "volume"; "volume"; "momentum";
                   "volume"; "volume"; "volume"; "volume"; "volume"; "volume"])
    by (vm_compute; reflexivity).
  rewrite Hdocs. clear Hdocs.
  set (docs := ["volume"; "volume"; "volume"; "momentum"; "volume"; "volume"; "momentum";
                "volume"; "volume"; "volume"; "volume"; "volume"; "volume"]).
  exists (contribution (bm25.Fit (bm25.New 1.5 0.75) docs) 1 1 "momentum").
  split.
  - apply contribution_pos; [unfold params_ok; lra | lia |].
    rewrite Fit_New_idf by discriminate.
    assert (Hdf : doc_frequency "momentum" docs = 2%nat) by (vm_compute; reflexivity).
    rewrite Hdf. simpl. eauto.
  - assert (Hq : bm25.Tokenize "momentum" = ["momentum"]) by reflexivity.
    assert (Hc : List.map bm25.Tokenize docs =
                 [["volume"]; ["volume"]; ["volume"]; ["momentum"]; ["volume"]; ["volume"];
                  ["momentum"]; ["volume"]; ["volume"]; ["volume"]; ["volume"]; ["volume"];
                  ["volume"]]) by (vm_compute; reflexivity).
    rewrite Hq, Hc. clear Hq Hc.
    generalize (bm25.Fit (bm25.New 1.5 0.75) docs). intros bm.
    assert (H0 : doc_score bm ["momentum"] ["volume"] = 0%R).
    { unfold doc_score. cbn [fold_left length].
      change (term_count "momentum" ["volume"]) with 0%nat.
      rewrite contribution_tf_zero. lra. }
    assert (Ht : doc_score bm ["momentum"] ["momentum"] = contribution bm 1 1 "momentum").
    { unfold doc_score. cbn [fold_left length].
      change (term_count "momentum" ["momentum"]) with 1%nat. lra. }
    unfold example_scored. cbn [imap compose]. rewrite H0, Ht. reflexivity.
Qed.

Lemma example_Search sortSlice (maxResults : Z) :
  sort_ok sortSlice ->
  (0 <= maxResults)%Z ->
  exists t : R, (0 < t)%R /\
    bm25.Score (engine_of indicator_config example_data) "momentum" = inr (example_scored t) /\
    Search (example_env sortSlice) "data" "momentum" "indicator" maxResults =
    Ok (Result.mk "indicator" "momentum" "indicators.csv"
          (length (accepted maxResults 0 (sortSlice (example_scored t))))
          (List.map (hit_row indicator_config example_data)
                    (accepted maxResults 0 (sortSlice (example_scored t))))).
Proof.
  intros Hsort Hmax. destruct example_doc_scores as (t & Ht & Hscored).
  exists t. split; [exact Ht|]. split.
  - unfold engine_of. rewrite Score_Fit_New by (unfold params_ok; lra).
    f_equal. exact Hscored.
  - rewrite (Search_eval _ _ _ _ _ indicator_config example_data).
    + destruct (maxResults <? 0)%Z eqn:E; [apply Z.ltb_lt in E; lia|].
      cbv zeta. rewrite Hscored. reflexivity.
    + apply Hsort.
    + apply example_config.
    + apply example_load.
Qed.

End Example.

(** ** Claims on [Search] *)

Section SearchClaims.

Import search.

Lemma Search_Ok_inv env dataDir query domain maxResults res :
  sort_ok (sort_Slice env) ->
  Search env dataDir query domain maxResults = Ok res ->
  exists config data scored,
    DomainConfigs !! resolve env query domain = Some config /\
    loadCSV env (filepath_Join env dataDir (Config.File config)) = inr data /\
    (0 <= maxResults)%Z /\
    bm25.Score (engine_of config data) query = inr scored /\
    length scored = length data /\
    res = Result.mk (resolve env query domain) query (Config.File config)
            (length (accepted maxResults 0 (sort_Slice env scored)))
            (List.map (hit_row config data) (accepted maxResults 0 (sort_Slice env scored))).
Proof.
  intros Hsort H.
  destruct (DomainConfigs !! resolve env query domain) as [config|] eqn:Hcfg;
    [|unfold Search in H; fold (resolve env query domain) in H; rewrite Hcfg in H; discriminate].
  destruct (loadCSV env (filepath_Join env dataDir (Config.File config))) as [e|data] eqn:Hload;
    [unfold Search in H; fold (resolve env query domain) in H;
     rewrite Hcfg, Hload in H; discriminate|].
  rewrite (Search_eval _ _ _ _ _ config data) in H;
    [|apply Hsort | exact Hcfg | exact Hload].
  destruct (maxResults <? 0)%Z eqn:E; [discriminate|]. apply Z.ltb_ge in E.
  exists config, data. eexists.
  split; [reflexivity|]. split; [exact Hload|]. split; [exact E|].
  split; [unfold engine_of; apply Score_Fit_New; unfold params_ok; lra|].
  split; [rewrite length_imap, !length_map; reflexivity|].
  cbv zeta in H. injection H as <-. reflexivity.
Qed.

Lemma Fit_New_idf_None k1 b documents token :
  (forall d, d ∈ documents -> token ∉ bm25.Tokenize d) ->
  bm25.idf (bm25.Fit (bm25.New k1 b) documents) !! token = None.
Proof.
  intros Hno. destruct (bm25.idf _ !! token) as [v|] eqn:E; [|reflexivity].
  destruct (Fit_New_idf_doc k1 b documents token) as (doc & Hdoc & Htok); [eauto|].
  apply list_elem_of_fmap in Hdoc as (d & -> & Hd). destruct (Hno d Hd Htok).
Qed.

Lemma accepted_nonpositive maxResults n ranked :
  (forall r, r ∈ ranked -> (bm25.Result.Score r <= 0)%R) ->
  accepted maxResults n ranked = [].
Proof.
  intros H. destruct ranked as [|r ranked]; [reflexivity|].
  apply accepted_cons_stop. apply H. left.
Qed.

(** A query that shares no token with any record: no result, and no error. *)
Lemma Search_no_overlap env dataDir query domain maxResults config data :
  sort_ok (sort_Slice env) ->
  DomainConfigs !! resolve env query domain = Some config ->
  loadCSV env (filepath_Join env dataDir (Config.File config)) = inr data ->
  (0 <= maxResults)%Z ->
  (forall token r, token ∈ bm25.Tokenize query -> r ∈ data ->
     token ∉ bm25.Tokenize (document config r)) ->
  Search env dataDir query domain maxResults =
  Ok (Result.mk (resolve env query domain) query (Config.File config) 0 []).
Proof.
  intros Hsort Hcfg Hload Hmax Hno.
  rewrite (Search_eval _ _ _ _ _ config data); [|apply Hsort | exact Hcfg | exact Hload].
  destruct (maxResults <? 0)%Z eqn:E; [apply Z.ltb_lt in E; lia|].
  cbv zeta. rewrite accepted_nonpositive; [reflexivity|].
  intros r Hr. rewrite (proj1 (Hsort _)) in Hr.
  apply elem_of_lookup_imap in Hr as (i & doc & -> & _). simpl.
  rewrite doc_score_no_vocabulary; [lra|].
  intros token Htok. unfold engine_of. apply Fit_New_idf_None.
  intros d Hd. apply list_elem_of_fmap in Hd as (r & -> & Hr). apply Hno; assumption.
Qed.

Lemma sorted_desc_app_l l1 l2 : sorted_desc (l1 ++ l2) -> sorted_desc l1.
Proof.
  unfold sorted_desc. induction l1 as [|x l1 IH]; simpl; intros H; [constructor|].
  inversion H as [|? ? Hs Hx]; subst. constructor; [apply IH; exact Hs|].
  apply Forall_app in Hx. tauto.
Qed.

Lemma record_order_app_l l1 l2 : record_order (l1 ++ l2) -> record_order l1.
Proof.
  intros H i j x y Hij Hi Hj. apply (H i j x y Hij).
  - apply lookup_app_l_Some. exact Hi.
  - apply lookup_app_l_Some. exact Hj.
Qed.

End SearchClaims.

(** C1. Under the contract of the environment, every record a successful
    [Search] returns stands for a document whose score, as [Score] computed
    it, is positive; the count is the number of returned records, at most
    [maxResults] and at most the number of documents with a positive score.
    A query that shares no token with any record of the resolved domain gives
    count 0 and no record, not an error (for [maxResults >= 0]). *)
Theorem C1_search_returns_positive_scores (env : search.Env)
    (dataDir query domain : string) (maxResults : Z) :
  search.Env_ok env ->
  (forall res, search.Search env dataDir query domain maxResults = search.Ok res ->
     exists config data scored hits,
       search.DomainConfigs !! search.Result.Domain res = Some config /\
       search.loadCSV env (search.filepath_Join env dataDir (search.Config.File config))
         = inr data /\
       bm25.Score (engine_of config data) query = inr scored /\
       (exists rest, search.sort_Slice env scored = hits ++ rest) /\
       (forall r, r ∈ hits -> r ∈ scored /\ (0 < bm25.Result.Score r)%R) /\
       search.Result.Results res = List.map (hit_row config data) hits /\
       search.Result.Count res = length (search.Result.Results res) /\
       (Z.of_nat (search.Result.Count res) <= maxResults)%Z /\
       (search.Result.Count res <= positive_count scored)%nat) /\
  (forall config data,
     search.DomainConfigs !! resolve env query domain = Some config ->
     search.loadCSV env (search.filepath_Join env dataDir (search.Config.File config))
       = inr data ->
     (0 <= maxResults)%Z ->
     (forall token r, token ∈ bm25.Tokenize query -> r ∈ data ->
        token ∉ bm25.Tokenize (search.document config r)) ->
     search.Search env dataDir query domain maxResults =
     search.Ok (search.Result.mk (resolve env query domain) query
                  (search.Config.File config) 0 [])).
Proof.
  intros [_ Hsort]. split.
  - intros res H.
    destruct (Search_Ok_inv _ _ _ _ _ _ Hsort H)
      as (config & data & scored & Hcfg & Hload & Hmax & Hscore & _ & ->).
    exists config, data, scored, (accepted maxResults 0 (search.sort_Slice env scored)).
    simpl. split; [exact Hcfg|]. split; [exact Hload|]. split; [exact Hscore|].
    split; [apply accepted_prefix|]. split; [|split; [reflexivity|split; [|split]]].
    + intros r Hr. split; [|eapply accepted_positive; exact Hr].
      destruct (accepted_prefix maxResults (search.sort_Slice env scored) 0) as [rest Hrest].
      rewrite <- (proj1 (Hsort scored)), Hrest. apply elem_of_app. left. exact Hr.
    + rewrite length_map. reflexivity.
    + apply (accepted_length maxResults (search.sort_Slice env scored) 0). simpl. exact Hmax.
    + rewrite <- (positive_count_perm _ _ (proj1 (Hsort scored))).
      apply accepted_le_positive.
  - intros config data Hcfg Hload Hmax Hno.
    apply (Search_no_overlap _ _ _ _ _ config data); assumption.
Qed.

Section ExampleRuns.

Import search.

Lemma example_hits_pivot_first t :
  (0 < t)%R ->
  accepted 2 0 (pivot_first_sort (example_scored t)) =
  [bm25.Result.mk 6 t; bm25.Result.mk 3 t].
Proof.
  intros Ht. destruct (pivot_first_sort_example t Ht) as [rest ->].
  rewrite accepted_cons_take by (simpl; lia || lra).
  rewrite accepted_cons_take by (simpl; lia || lra).
  rewrite accepted_full by (simpl; lia). reflexivity.
Qed.

Lemma example_hits_stable t :
  (0 < t)%R ->
  accepted 2 0 (insertion_sort (example_scored t)) =
  [bm25.Result.mk 3 t; bm25.Result.mk 6 t].
Proof.
  intros Ht. destruct (insertion_sort_example t Ht) as [rest ->].
  rewrite accepted_cons_take by (simpl; lia || lra).
  rewrite accepted_cons_take by (simpl; lia || lra).
  rewrite accepted_full by (simpl; lia). reflexivity.
Qed.

Lemma example_hit_rows t :
  hit_row indicator_config example_data (bm25.Result.mk 3 t) = example_first /\
  hit_row indicator_config example_data (bm25.Result.mk 6 t) = example_second.
Proof. split; reflexivity. Qed.

(** With the unstable sort the record 6 is returned before the record 3. *)
Lemma example_Search_pivot_first :
  Search (example_env pivot_first_sort) "data" "momentum" "indicator" 2 =
  Ok (Result.mk "indicator" "momentum" "indicators.csv" 2 [example_second; example_first]).
Proof.
  destruct (example_Search pivot_first_sort 2 pivot_first_sort_ok ltac:(lia))
    as (t & Ht & _ & ->).
  rewrite example_hits_pivot_first by exact Ht.
  cbn [List.map length]. destruct (example_hit_rows t) as [-> ->]. reflexivity.
Qed.

(** With the stable sort they come in the order of the file. *)
Lemma example_Search_stable :
  Search (example_env insertion_sort) "data" "momentum" "indicator" 2 =
  Ok (Result.mk "indicator" "momentum" "indicators.csv" 2 [example_first; example_second]).
Proof.
  destruct (example_Search insertion_sort 2 insertion_sort_ok ltac:(lia))
    as (t & Ht & _ & ->).
  rewrite example_hits_stable by exact Ht.
  cbn [List.map length]. destruct (example_hit_rows t) as [-> ->]. reflexivity.
Qed.

End ExampleRuns.

Lemma C1_search_witness :
  exists res config data scored hits,
    search.Search (example_env insertion_sort) "data" "momentum" "indicator" 2 = search.Ok res /\
    search.Result.Results res = [example_first; example_second] /\
    bm25.Score (engine_of config data) "momentum" = inr scored /\
    (forall r, r ∈ hits -> r ∈ scored /\ (0 < bm25.Result.Score r)%R) /\
    search.Result.Results res = List.map (hit_row config data) hits /\
    search.Result.Count res = length (search.Result.Results res) /\
    (Z.of_nat (search.Result.Count res) <= 2)%Z /\
    (search.Result.Count res <= positive_count scored)%nat.
Proof.
  destruct (C1_search_returns_positive_scores (example_env insertion_sort)
              "data" "momentum" "indicator" 2 (example_env_ok _ insertion_sort_ok))
    as [H _].
  destruct (H _ example_Search_stable)
    as (config & data & scored & hits & _ & _ & Hs & _ & Hpos & Hres & Hc & Hm & Hp).
  eexists _, config, data, scored, hits.
  split; [exact example_Search_stable|]. split; [reflexivity|].
  split; [exact Hs|]. split; [exact Hpos|]. split; [exact Hres|].
  split; [exact Hc|]. split; [exact Hm | exact Hp].
Defined.

(** C2 (as stated, refuted). In the example the records 3 and 6 have the same
    positive score; a [sort.Slice] that meets its contract returns the record
    6 before the record 3. *)
Lemma C2_unstable_sort_counterexample :
  search.Env_ok (example_env pivot_first_sort) /\
  exists t : R, (0 < t)%R /\
    bm25.Score (engine_of indicator_config example_data) "momentum"
      = inr (example_scored t) /\
    example_scored t !! 3%nat = Some (bm25.Result.mk 3 t) /\
    example_scored t !! 6%nat = Some (bm25.Result.mk 6 t) /\
    hit_row indicator_config example_data (bm25.Result.mk 3 t) = example_first /\
    hit_row indicator_config example_data (bm25.Result.mk 6 t) = example_second /\
    search.Search (example_env pivot_first_sort) "data" "momentum" "indicator" 2 =
    search.Ok (search.Result.mk "indicator" "momentum" "indicators.csv" 2
                 [example_second; example_first]).
Proof.
  split; [apply example_env_ok, pivot_first_sort_ok|].
  destruct (example_Search pivot_first_sort 2 pivot_first_sort_ok ltac:(lia))
    as (t & Ht & Hscore & _).
  exists t. split; [exact Ht|]. split; [exact Hscore|].
  split; [reflexivity|]. split; [reflexivity|].
  destruct (example_hit_rows t) as [H3 H6].
  split; [exact H3|]. split; [exact H6|]. exact example_Search_pivot_first.
Qed.

(** C2 (amended). Under the contract of the environment, the records a
    successful [Search] returns are the leading entries of the slice
    [sort.Slice] left, in non-increasing order of score; records with equal
    scores are in the order of the record store if [sort.Slice] left them so,
    which its contract does not promise. *)
Theorem C2_results_in_descending_order (env : search.Env)
    (dataDir query domain : string) (maxResults : Z) (res : search.Result.t) :
  search.Env_ok env ->
  search.Search env dataDir query domain maxResults = search.Ok res ->
  exists config data scored hits,
    search.loadCSV env (search.filepath_Join env dataDir (search.Config.File config))
      = inr data /\
    bm25.Score (engine_of config data) query = inr scored /\
    search.Result.Results res = List.map (hit_row config data) hits /\
    (exists rest, search.sort_Slice env scored = hits ++ rest) /\
    search.sorted_desc hits /\
    (record_order (search.sort_Slice env scored) -> record_order hits).
Proof.
  intros [_ Hsort] H.
  destruct (Search_Ok_inv _ _ _ _ _ _ Hsort H)
    as (config & data & scored & Hcfg & Hload & Hmax & Hscore & _ & ->).
  exists config, data, scored, (accepted maxResults 0 (search.sort_Slice env scored)).
  destruct (accepted_prefix maxResults (search.sort_Slice env scored) 0) as [rest Hrest].
  split; [exact Hload|]. split; [exact Hscore|]. split; [reflexivity|].
  split; [exists rest; exact Hrest|]. split.
  - apply (sorted_desc_app_l _ rest). rewrite <- Hrest. apply Hsort.
  - intros Hord. apply (record_order_app_l _ rest). rewrite <- Hrest. exact Hord.
Qed.

Lemma C2_descending_order_witness :
  exists config data scored hits,
    search.loadCSV (example_env pivot_first_sort)
      (search.filepath_Join (example_env pivot_first_sort) "data"
         (search.Config.File config)) = inr data /\
    bm25.Score (engine_of config data) "momentum" = inr scored /\
    [example_second; example_first] = List.map (hit_row config data) hits /\
    (exists rest, pivot_first_sort scored = hits ++ rest) /\
    search.sorted_desc hits /\
    (record_order (pivot_first_sort scored) -> record_order hits).
Proof.
  exact (C2_results_in_descending_order (example_env pivot_first_sort)
           "data" "momentum" "indicator" 2 _
           (example_env_ok _ pivot_first_sort_ok) example_Search_pivot_first).
Defined.

(** ** Domain detection *)

Section Detect.

Import search.

Lemma keyword_score_fold ql kws : forall s,
  (s <= fold_left (fun score kw => if Strings.Contains ql kw then S score else score) kws s)%nat /\
  (Forall (fun kw => Strings.Contains ql kw = false) kws ->
   fold_left (fun score kw => if Strings.Contains ql kw then S score else score) kws s = s) /\
  (Exists (fun kw => Strings.Contains ql kw = true) kws ->
   (s < fold_left (fun score kw => if Strings.Contains ql kw then S score else score) kws s)%nat).
Proof.
  induction kws as [|kw kws IH]; intros s; simpl.
  - split; [lia|]. split; [reflexivity | inversion 1].
  - destruct (Strings.Contains ql kw) eqn:E.
    + destruct (IH (S s)) as (Hle & _ & _). split; [lia|]. split.
      * intros H. inversion H; subst. congruence.
      * intros _. lia.
    + destruct (IH s) as (Hle & Hall & Hex). split; [exact Hle|]. split.
      * intros H. inversion H; subst. auto.
      * intros H. inversion H; subst; [congruence | auto].
Qed.

Lemma keyword_score_zero ql kws :
  Forall (fun kw => Strings.Contains ql kw = false) kws -> keyword_score ql kws = 0%nat.
Proof. apply keyword_score_fold. Qed.

Lemma keyword_score_pos ql kws :
  Exists (fun kw => Strings.Contains ql kw = true) kws -> (0 < keyword_score ql kws)%nat.
Proof. apply keyword_score_fold. Qed.

(** The loop keeps its state over domains that score 0 or are no key. *)
Lemma best_fold_zero (scores : gmap string nat) order : forall best,
  (forall B s, B ∈ order -> scores !! B = Some s -> (s <= snd best)%nat) ->
  fold_left (best_step scores) order best = best.
Proof.
  induction order as [|B order IH]; intros best H; simpl; [reflexivity|].
  assert (Hstep : best_step scores best B = best).
  { unfold best_step. destruct (scores !! B) as [s|] eqn:E; [|reflexivity].
    specialize (H B s ltac:(left) E).
    destruct (snd best <? s)%nat eqn:Elt; [apply Nat.ltb_lt in Elt; lia | reflexivity]. }
  rewrite Hstep. apply IH. intros B' s HB'. apply H. right. exact HB'.
Qed.

(** The loop ends on the only domain with a positive score. *)
Lemma best_fold_single (scores : gmap string nat) A n order : forall d,
  A ∈ order -> scores !! A = Some n -> (0 < n)%nat ->
  (forall B s, B ∈ order -> B <> A -> scores !! B = Some s -> s = 0%nat) ->
  fold_left (best_step scores) order (d, 0%nat) = (A, n).
Proof.
  induction order as [|B order IH]; intros d HA Hn Hpos Hothers; [inversion HA|].
  simpl. destruct (decide (B = A)) as [->|Hne].
  - unfold best_step at 2. rewrite Hn. simpl.
    destruct (0 <? n)%nat eqn:E; [|apply Nat.ltb_ge in E; lia].
    apply best_fold_zero. intros B s HB Hs. simpl.
    destruct (decide (B = A)) as [->|HneB]; [rewrite Hn in Hs; injection Hs as ->; lia|].
    rewrite (Hothers B s (ltac:(right; exact HB)) HneB Hs). lia.
  - assert (Hstep : best_step scores (d, 0%nat) B = (d, 0%nat)).
    { unfold best_step. destruct (scores !! B) as [s|] eqn:E; [|reflexivity].
      rewrite (Hothers B s ltac:(left) Hne E). reflexivity. }
    rewrite Hstep. apply IH; auto.
    + apply elem_of_cons in HA as [->|HA]; [congruence | exact HA].
    + intros B' s HB'. apply Hothers. right. exact HB'.
Qed.

Lemma DomainKeywords_key A kws :
  DomainKeywords !! A = Some kws -> A ∈ domains /\ A <> "".
Proof.
  intros H. unfold DomainKeywords in H. apply elem_of_list_to_map_2 in H.
  assert (HA : A ∈ domains).
  { apply (list_elem_of_fmap_2 fst) in H. exact H. }
  split; [exact HA|]. intros ->. unfold domains in HA.
  repeat (apply elem_of_cons in HA as [HA|HA]; [discriminate HA|]).
  inversion HA.
Qed.

Lemma DetectDomain_single order query A kwsA :
  A ∈ order ->
  DomainKeywords !! A = Some kwsA ->
  Exists (fun kw => Strings.Contains (Strings.ToLower query) kw = true) kwsA ->
  (forall B kwsB, DomainKeywords !! B = Some kwsB -> B <> A ->
     Forall (fun kw => Strings.Contains (Strings.ToLower query) kw = false) kwsB) ->
  DetectDomain order query = A.
Proof.
  intros HA HkA Hex Hothers. unfold DetectDomain.
  rewrite (best_fold_single _ A (keyword_score (Strings.ToLower query) kwsA)).
  - simpl. apply keyword_score_pos in Hex.
    destruct (_ =? 0)%nat eqn:E; [apply Nat.eqb_eq in E; lia | reflexivity].
  - exact HA.
  - rewrite lookup_fmap, HkA. reflexivity.
  - apply keyword_score_pos. exact Hex.
  - intros B s _ Hne Hs. rewrite lookup_fmap in Hs.
    destruct (DomainKeywords !! B) as [kwsB|] eqn:E; [|discriminate].
    simpl in Hs. injection Hs as <-. apply keyword_score_zero. eapply Hothers; eauto.
Qed.

Lemma DetectDomain_none order query :
  (forall B kwsB, DomainKeywords !! B = Some kwsB ->
     Forall (fun kw => Strings.Contains (Strings.ToLower query) kw = false) kwsB) ->
  DetectDomain order query = "strategy".
Proof.
  intros Hnone. unfold DetectDomain. rewrite best_fold_zero; [reflexivity|].
  intros B s _ Hs. rewrite lookup_fmap in Hs.
  destruct (DomainKeywords !! B) as [kwsB|] eqn:E; [|discriminate].
  simpl in Hs. injection Hs as <-. rewrite keyword_score_zero; [simpl; lia|]. eauto.
Qed.

Lemma Search_auto env dataDir query A maxResults :
  A <> "" ->
  DetectDomain (range_scores env) query = A ->
  Search env dataDir query "" maxResults = Search env dataDir query A maxResults.
Proof.
  intros Hne Hd. unfold Search. simpl String.eqb. rewrite Hd.
  destruct (String.eqb A "") eqn:E; [apply String.eqb_eq in E; congruence|]. reflexivity.
Qed.

End Detect.

Ltac by_decision :=
  match goal with
  | |- ?G => refine (@bool_decide_unpack G _ _); vm_compute; exact I
  end.

(** C3 (the code fails the claim). The query "vwap" holds one key word of
    "strategy" and one of "indicator".  Both orders below are orders in which
    [range] may visit the map; [DetectDomain] answers "strategy" for one and
    "indicator" for the other, and two runs of [Search] over the same record
    store, with the same arguments, return different results. *)
Theorem C3_detection_depends_on_range_order :
  search.range_ok strategy_first /\ search.range_ok indicator_first /\
  search.DetectDomain strategy_first "vwap" = "strategy" /\
  search.DetectDomain indicator_first "vwap" = "indicator" /\
  search.Search run_strategy_first "data" "vwap" "" 3 =
    search.Ok (search.Result.mk "strategy" "vwap" "strategies.csv" 0 []) /\
  search.Search run_indicator_first "data" "vwap" "" 3 =
    search.Ok (search.Result.mk "indicator" "vwap" "indicators.csv" 0 []).
Proof.
  split; [apply Permutation_refl|].
  split; [apply perm_swap|].
  split; [vm_compute; reflexivity|]. split; [vm_compute; reflexivity|].
  split.
  - rewrite (Search_no_overlap run_strategy_first "data" "vwap" "" 3
               strategy_config example_data).
    + reflexivity.
    + apply insertion_sort_ok.
    + reflexivity.
    + reflexivity.
    + lia.
    + intros token r Htok Hr.
      change (bm25.Tokenize "vwap") with ["vwap"] in Htok.
      apply list_elem_of_singleton in Htok as ->. revert r Hr.
      apply (proj1 (Forall_forall _ _)). by_decision.
  - rewrite (Search_no_overlap run_indicator_first "data" "vwap" "" 3
               indicator_config example_data).
    + reflexivity.
    + apply insertion_sort_ok.
    + reflexivity.
    + reflexivity.
    + lia.
    + intros token r Htok Hr.
      change (bm25.Tokenize "vwap") with ["vwap"] in Htok.
      apply list_elem_of_singleton in Htok as ->. revert r Hr.
      apply (proj1 (Forall_forall _ _)). by_decision.
Qed.

(** C7. Under the contract of [range]: when the lower-cased query contains a
    key word of the domain [A] and no key word of any other domain,
    [DetectDomain] answers [A] and [Search] with the empty domain does what
    [Search] with the domain [A] does; when it contains no key word of any
    domain, the same holds with the fallback "strategy". *)
Theorem C7_auto_detection (env : search.Env) (dataDir query : string) (maxResults : Z) :
  search.range_ok (search.range_scores env) ->
  (forall A kwsA,
     search.DomainKeywords !! A = Some kwsA ->
     Exists (fun kw => Strings.Contains (Strings.ToLower query) kw = true) kwsA ->
     (forall B kwsB, search.DomainKeywords !! B = Some kwsB -> B <> A ->
        Forall (fun kw => Strings.Contains (Strings.ToLower query) kw = false) kwsB) ->
     search.DetectDomain (search.range_scores env) query = A /\
     search.Search env dataDir query "" maxResults =
     search.Search env dataDir query A maxResults) /\
  ((forall B kwsB, search.DomainKeywords !! B = Some kwsB ->
      Forall (fun kw => Strings.Contains (Strings.ToLower query) kw = false) kwsB) ->
   search.DetectDomain (search.range_scores env) query = "strategy" /\
   search.Search env dataDir query "" maxResults =
   search.Search env dataDir query "strategy" maxResults).
Proof.
  intros Hrange. split.
  - intros A kwsA HkA Hex Hothers.
    destruct (DomainKeywords_key A kwsA HkA) as [HA Hne].
    assert (Hd : search.DetectDomain (search.range_scores env) query = A).
    { apply (DetectDomain_single _ _ A kwsA); auto.
      unfold search.range_ok in Hrange. rewrite Hrange. exact HA. }
    split; [exact Hd|]. apply Search_auto; assumption.
  - intros Hnone.
    assert (Hd : search.DetectDomain (search.range_scores env) query = "strategy")
      by (apply DetectDomain_none; exact Hnone).
    split; [exact Hd|]. apply Search_auto; [discriminate | exact Hd].
Qed.

Lemma C7_auto_detection_witness :
  (search.DetectDomain indicator_first "RSI and Bollinger" = "indicator" /\
   search.Search run_indicator_first "data" "RSI and Bollinger" "" 3 =
   search.Search run_indicator_first "data" "RSI and Bollinger" "indicator" 3) /\
  (search.DetectDomain indicator_first "zzz_no_such_term" = "strategy" /\
   search.Search run_indicator_first "data" "zzz_no_such_term" "" 3 =
   search.Search run_indicator_first "data" "zzz_no_such_term" "strategy" 3).
Proof.
  split.
  - refine (proj1 (C7_auto_detection run_indicator_first "data" "RSI and Bollinger" 3 _)
                  "indicator" _ _ _ _).
    + apply perm_swap.
    + reflexivity.
    + by_decision.
    + change (map_Forall
                (fun B kwsB => B <> "indicator" ->
                   Forall (fun kw => Strings.Contains
                                       (Strings.ToLower "RSI and Bollinger") kw = false) kwsB)
                search.DomainKeywords).
      by_decision.
  - refine (proj2 (C7_auto_detection run_indicator_first "data" "zzz_no_such_term" 3 _) _).
    + apply perm_swap.
    + change (map_Forall
                (fun B kwsB =>
                   Forall (fun kw => Strings.Contains
                                       (Strings.ToLower "zzz_no_such_term") kw = false) kwsB)
                search.DomainKeywords).
      by_decision.
Defined.

(** C8. When the file of the resolved domain is read and has fewer than two
    rows, [loadCSV] fails with "CSV file too short" and [Search] returns that
    error and no result, whatever [maxResults] is. *)
Theorem C8_short_file_is_an_error (env : search.Env) (dataDir query domain : string)
    (maxResults : Z) (config : search.Config.t) (records : list (list string)) :
  search.DomainConfigs !! resolve env query domain = Some config ->
  search.csv_ReadAll env (search.filepath_Join env dataDir (search.Config.File config))
    = inr records ->
  (length records < 2)%nat ->
  search.loadCSV env (search.filepath_Join env dataDir (search.Config.File config))
    = inl search.CSVTooShort /\
  search.Search env dataDir query domain maxResults = search.Err search.CSVTooShort.
Proof.
  intros Hcfg Hread Hlen.
  assert (Hload : search.loadCSV env
                    (search.filepath_Join env dataDir (search.Config.File config))
                  = inl search.CSVTooShort).
  { unfold search.loadCSV. rewrite Hread.
    destruct (length records <? 2)%nat eqn:E; [reflexivity|].
    apply Nat.ltb_ge in E. lia. }
  split; [exact Hload|].
  unfold search.Search. fold (resolve env query domain). rewrite Hcfg, Hload. reflexivity.
Qed.

Lemma C8_short_file_witness :
  search.loadCSV header_only_env
    (search.filepath_Join header_only_env "data" (search.Config.File indicator_config))
    = inl search.CSVTooShort /\
  search.Search header_only_env "data" "rsi" "indicator" 3 = search.Err search.CSVTooShort.
Proof.
  apply (C8_short_file_is_an_error header_only_env "data" "rsi" "indicator" 3
           indicator_config [["Keywords"; "Parameters"]]).
  - reflexivity.
  - reflexivity.
  - simpl. lia.
Defined.

(** * Further properties of the ranking engine *)

Lemma Fit_document_frequencies_aux (k1 b : R) (documents : list string) (t : string) :
  bm25.docFreqs (bm25.Fit (bm25.New k1 b) documents) !! t =
    (if decide (doc_frequency t documents = 0)%nat then None
     else Some (doc_frequency t documents)) /\
  (doc_frequency t documents <= bm25.N (bm25.Fit (bm25.New k1 b) documents))%nat.
Proof.
  destruct documents as [|d documents].
  - split; [|reflexivity]. rewrite Fit_New_nil. apply lookup_empty.
  - split; [apply Fit_New_docFreqs; discriminate|].
    change (bm25.N (bm25.Fit (bm25.New k1 b) (d :: documents)))
      with (length (d :: documents)).
    apply doc_frequency_le.
Qed.

(** [Fit] counts every document once per distinct word: after [Fit] on a new
    engine, the document frequency of a term is the number of documents that
    contain it, a term of no document has no entry, and no frequency exceeds
    the number of documents. *)
Theorem Fit_document_frequencies (k1 b : R) (documents : list string) (t : string) :
  bm25.docFreqs (bm25.Fit (bm25.New k1 b) documents) !! t =
    (if decide (doc_frequency t documents = 0)%nat then None
     else Some (doc_frequency t documents)) /\
  (doc_frequency t documents <= bm25.N (bm25.Fit (bm25.New k1 b) documents))%nat.
Proof. apply Fit_document_frequencies_aux. Qed.



(** [Score] on an engine fitted once with [0 < k1], [0 <= b < 1] returns one
    result per document, in the order of the documents, with [Index] the
    position of the document and [Score] the sum, over the query tokens in
    order, of the BM25 contributions. *)
Theorem Score_one_result_per_document (k1 b : R) (documents : list string) (query : string) :
  params_ok k1 b ->
  bm25.Score (bm25.Fit (bm25.New k1 b) documents) query =
  inr (imap (fun i d =>
               bm25.Result.mk i
                 (doc_score (bm25.Fit (bm25.New k1 b) documents)
                            (bm25.Tokenize query) (bm25.Tokenize d)))
            documents).
Proof.
  intros Hp. rewrite Score_Fit_New by exact Hp. f_equal.
  apply list_eq. intros i. rewrite !list_lookup_imap, list_lookup_fmap.
  destruct (documents !! i); reflexivity.
Qed.

Lemma Score_one_result_per_document_witness :
  bm25.Score (bm25.Fit (bm25.New 1.5 0.75) ["rsi momentum"; "momentum trading"]) "rsi" =
  inr (imap (fun i d =>
               bm25.Result.mk i
                 (doc_score (bm25.Fit (bm25.New 1.5 0.75) ["rsi momentum"; "momentum trading"])
                            (bm25.Tokenize "rsi") (bm25.Tokenize d)))
            ["rsi momentum"; "momentum trading"]).
Proof.
  apply (Score_one_result_per_document 1.5 0.75 ["rsi momentum"; "momentum trading"] "rsi").
  unfold params_ok. lra.
Defined.

(** A query none of whose tokens occurs in a document scores 0 for every
    document, whatever [k1] and [b] are: no division is evaluated. *)
Theorem Score_unknown_tokens (k1 b : R) (documents : list string) (query : string) :
  (forall token d, token ∈ bm25.Tokenize query -> d ∈ documents ->
     token ∉ bm25.Tokenize d) ->
  bm25.Score (bm25.Fit (bm25.New k1 b) documents) query =
  inr (imap (fun i _ => bm25.Result.mk i 0%R) documents).
Proof.
  intros Hno.
  assert (Hnone : forall token, token ∈ bm25.Tokenize query ->
                    bm25.idf (bm25.Fit (bm25.New k1 b) documents) !! token = None).
  { intros token Ht. apply Fit_New_idf_None. intros d Hd. apply Hno; assumption. }
  rewrite Score_ok.
  - rewrite Fit_New_corpus. f_equal. apply list_eq. intros i.
    rewrite !list_lookup_imap, list_lookup_fmap.
    destruct (documents !! i); simpl; [|reflexivity].
    rewrite doc_score_no_vocabulary by exact Hnone. reflexivity.
  - apply Fit_New_consistent.
  - intros doc token _ Ht [v Hv]. rewrite (Hnone token Ht) in Hv. discriminate.
Qed.

Lemma Score_unknown_tokens_witness :
  bm25.Score (bm25.Fit (bm25.New 0 1) ["rsi momentum"; ""]) "zzz_no_such_term" =
  inr (imap (fun i _ => bm25.Result.mk i 0%R) ["rsi momentum"; ""]).
Proof.
  apply (Score_unknown_tokens 0 1 ["rsi momentum"; ""] "zzz_no_such_term").
  intros token d Ht. change (bm25.Tokenize "zzz_no_such_term") with ["zzz_no_such_term"] in Ht.
  apply list_elem_of_singleton in Ht. subst token. revert d.
  apply (proj1 (Forall_forall _ _)). by_decision.
Defined.





(** * Further properties of the tokenizer *)

Section TokenizerMore.

Import Byte Strings.

Lemma to_lower_idem c : to_lower (to_lower c) = to_lower c.
Proof. destruct c as [[] [] [] [] [] [] [] []]; reflexivity. Qed.

(** [to_lower] yields a byte outside ASCII only from that byte. *)
Lemma to_lower_high c x :
  to_lower c = x -> (128 <=? nat_of_ascii x)%nat = true -> c = x.
Proof. intros <-. destruct c as [[] [] [] [] [] [] [] []]; vm_compute; congruence. Qed.

(** A byte outside ASCII at the head of a lowered text stands at the head of
    the text, and is not the lead byte of one of the two runes. *)
Lemma ToLower_head s x u :
  ToLower s = String x u -> (128 <=? nat_of_ascii x)%nat = true ->
  exists s', s = String x s' /\ u = ToLower s'.
Proof.
  intros H Hx. destruct s as [|c s1]; [discriminate H|].
  destruct (ToLower_cases c s1)
    as [(-> & s2 & -> & E)|[(-> & s3 & -> & E)|(_ & _ & E)]]; rewrite E in H.
  - injection H as <- _. discriminate Hx.
  - injection H as <- _. discriminate Hx.
  - injection H as H1 H2. apply to_lower_high in H1; [|exact Hx]. subst.
    exists s1. split; reflexivity.
Qed.

Lemma ToLower_idem s : ToLower (ToLower s) = ToLower s.
Proof.
  induction s as [[|c s1] IH] using string_length_ind; [reflexivity|].
  destruct (ToLower_cases c s1)
    as [(-> & s2 & -> & ->)|[(-> & s3 & -> & ->)|(HI & HK & ->)]].
  - rewrite ToLower_byte by discriminate. rewrite IH by (simpl; lia). reflexivity.
  - rewrite ToLower_byte by discriminate. rewrite IH by (simpl; lia). reflexivity.
  - assert (IH1 : ToLower (ToLower s1) = ToLower s1) by (apply IH; simpl; lia).
    destruct (ToLower_cases (to_lower c) (ToLower s1))
      as [(Ec & u & Eu & _)|[(Ec & u & Eu & _)|(_ & _ & ->)]].
    + exfalso. apply to_lower_high in Ec; [|reflexivity].
      apply ToLower_head in Eu as (s' & -> & _); [|reflexivity].
      exact (HI s' eq_refl Ec).
    + exfalso. apply to_lower_high in Ec; [|reflexivity].
      apply ToLower_head in Eu as (s' & -> & Es'); [|reflexivity].
      symmetry in Es'. apply ToLower_head in Es' as (s'' & -> & _); [|reflexivity].
      exact (HK s'' eq_refl Ec).
    + rewrite to_lower_idem, IH1. reflexivity.
Qed.

(** "KELLY" and "INDEX" written with the Kelvin sign and with the dotted
    capital I have the tokens "kelly" and "index", as in Go. *)
Lemma Tokenize_kelvin_sign :
  bm25.Tokenize (String "226" (String "132" (String "170" "ELLY"))) = ["kelly"] /\
  bm25.Tokenize (String "196" (String "176" "NDEX")) = ["index"].
Proof. split; reflexivity. Qed.

Lemma ToLower_space b : ToLower (String " " b) = String " " (ToLower b).
Proof. apply (ToLower_byte " " b); discriminate. Qed.

Lemma ToLower_blank a b :
  ToLower (a ++ String " " b)%string = (ToLower a ++ String " " (ToLower b))%string.
Proof.
  induction a as [[|c a1] IH] using string_length_ind.
  - apply ToLower_space.
  - change (String c a1 ++ String " " b)%string with (String c (a1 ++ String " " b)%string).
    destruct (ToLower_cases c a1)
      as [(-> & s2 & -> & ->)|[(-> & s3 & -> & ->)|(HI & HK & ->)]].
    + change (ToLower (String "196" (String "176" (s2 ++ String " " b))) =
              String "i" (ToLower s2 ++ String " " (ToLower b))).
      destruct (ToLower_cases "196" (String "176" (s2 ++ String " " b)%string))
        as [(_ & t & [= <-] & ->)|[([=] & _)|(H & _)]].
      * rewrite IH by (simpl; lia). reflexivity.
      * exfalso. exact (H _ eq_refl eq_refl).
    + change (ToLower (String "226" (String "132" (String "170" (s3 ++ String " " b)))) =
              String "k" (ToLower s3 ++ String " " (ToLower b))).
      destruct (ToLower_cases "226" (String "132" (String "170" (s3 ++ String " " b)%string)))
        as [([=] & _)|[(_ & t & [= <-] & ->)|(_ & H & _)]].
      * rewrite IH by (simpl; lia). reflexivity.
      * exfalso. exact (H _ eq_refl eq_refl).
    + change (ToLower (String c (a1 ++ String " " b)) =
              String (to_lower c) (ToLower a1 ++ String " " (ToLower b))).
      rewrite <- IH by (simpl; lia).
      destruct (ToLower_cases c (a1 ++ String " " b)%string)
        as [(-> & t & Et & _)|[(-> & t & Et & _)|(_ & _ & ->)]]; [| |reflexivity]; exfalso.
      * destruct a1 as [|c2 a2]; [discriminate Et|].
        injection Et as -> _. exact (HI _ eq_refl eq_refl).
      * destruct a1 as [|c2 [|c3 a3]]; [discriminate Et | discriminate Et |].
        injection Et as -> -> _. exact (HK _ eq_refl eq_refl).
Qed.

Lemma replace_punct_app s1 s2 :
  bm25.replace_punct (s1 ++ s2)%string
  = (bm25.replace_punct s1 ++ bm25.replace_punct s2)%string.
Proof. induction s1 as [|c s1 IH]; simpl; [reflexivity|]. rewrite IH. reflexivity. Qed.

Lemma fields_from_blank a b : forall w,
  fields_from w (a ++ String " " b)%string = fields_from w a ++ fields_from "" b.
Proof.
  induction a as [|c a IH]; intros w; simpl.
  - destruct (String.eqb w ""); reflexivity.
  - destruct (asciiSpace c).
    + destruct (String.eqb w ""); rewrite IH; reflexivity.
    + apply IH.
Qed.

Lemma Tokenize_blank a b :
  bm25.Tokenize (a ++ " " ++ b)%string = bm25.Tokenize a ++ bm25.Tokenize b.
Proof.
  unfold bm25.Tokenize, Fields.
  change (a ++ " " ++ b)%string with (a ++ String " " b)%string.
  rewrite ToLower_blank, replace_punct_app.
  change (bm25.replace_punct (String " " (ToLower b)))
    with (String " " (bm25.replace_punct (ToLower b))).
  rewrite fields_from_blank. apply List.filter_app.
Qed.

Lemma Tokenize_Join parts :
  bm25.Tokenize (Join parts " ") = concat (List.map bm25.Tokenize parts).
Proof.
  induction parts as [|e parts IH]; [reflexivity|].
  destruct parts as [|e' parts].
  - simpl. rewrite app_nil_r. reflexivity.
  - change (Join (e :: e' :: parts) " ") with (e ++ " " ++ Join (e' :: parts) " ")%string.
    rewrite Tokenize_blank, IH. reflexivity.
Qed.

Lemma replace_punct_token tok : token_bytes tok -> bm25.replace_punct tok = tok.
Proof.
  unfold token_bytes. induction tok as [|c tok IH]; simpl; intros H; [reflexivity|].
  inversion H as [|? ? Hc Htok]; subst. rewrite IH by exact Htok.
  unfold token_byte in Hc. apply andb_true_iff in Hc as [Hw _]. rewrite Hw. reflexivity.
Qed.

Lemma token_byte_not_space c : token_byte c = true -> asciiSpace c = false.
Proof. destruct c as [[] [] [] [] [] [] [] []]; vm_compute; congruence. Qed.

Lemma append_nil_r (s : string) : (s ++ "")%string = s.
Proof.
  induction s as [|c s IH]; [reflexivity|].
  change (String c (s ++ "")%string = String c s). f_equal. exact IH.
Qed.

Lemma append_assoc (s1 s2 s3 : string) : ((s1 ++ s2) ++ s3)%string = (s1 ++ s2 ++ s3)%string.
Proof.
  induction s1 as [|c s1 IH]; [reflexivity|].
  change (String c ((s1 ++ s2) ++ s3)%string = String c (s1 ++ s2 ++ s3)%string).
  f_equal. exact IH.
Qed.

Lemma fields_from_token tok : forall w,
  token_bytes tok -> (w ++ tok)%string <> "" -> fields_from w tok = [(w ++ tok)%string].
Proof.
  unfold token_bytes. induction tok as [|c tok IH]; intros w Htok Hne.
  - simpl. rewrite append_nil_r in *.
    destruct (String.eqb w "") eqn:E; [apply String.eqb_eq in E; congruence | reflexivity].
  - inversion Htok as [|? ? Hc Htok']; subst. simpl.
    rewrite (token_byte_not_space c Hc).
    rewrite IH; [| exact Htok' |].
    + rewrite append_assoc. reflexivity.
    + rewrite append_assoc. simpl. destruct w; discriminate.
Qed.

Lemma Tokenize_token tok :
  token_bytes tok -> (2 < String.length tok)%nat -> bm25.Tokenize tok = [tok].
Proof.
  intros Hb Hlen. unfold bm25.Tokenize, Fields.
  rewrite token_bytes_lower, replace_punct_token by exact Hb.
  rewrite fields_from_token; [| exact Hb | destruct tok; [simpl in Hlen; lia | discriminate]].
  change ("" ++ tok)%string with tok.
  simpl. apply Nat.ltb_lt in Hlen. rewrite Hlen. reflexivity.
Qed.

End TokenizerMore.

(** Tokenizing is case-insensitive for ASCII letters: a text and its
    lower-cased form have the same tokens. *)
Theorem Tokenize_case_insensitive (text : string) :
  bm25.Tokenize (Strings.ToLower text) = bm25.Tokenize text.
Proof. unfold bm25.Tokenize. rewrite ToLower_idem. reflexivity. Qed.

(** The tokens of texts joined by single blanks are the tokens of the texts,
    one text after the other: no token spans two of the joined texts. *)
Theorem Tokenize_joined_texts (parts : list string) :
  bm25.Tokenize (Strings.Join parts " ") = concat (List.map bm25.Tokenize parts).
Proof. apply Tokenize_Join. Qed.

(** Tokenizing is idempotent: every token is tokenized to itself, and the
    tokens of a text, joined by blanks, are tokenized to the same tokens. *)
Theorem Tokenize_idempotent (text : string) :
  (forall tok, In tok (bm25.Tokenize text) -> bm25.Tokenize tok = [tok]) /\
  bm25.Tokenize (Strings.Join (bm25.Tokenize text) " ") = bm25.Tokenize text.
Proof.
  assert (Htok : forall tok, In tok (bm25.Tokenize text) -> bm25.Tokenize tok = [tok]).
  { intros tok Hin. apply Tokenize_In in Hin as [Hb Hlen]. apply Tokenize_token; assumption. }
  split; [exact Htok|].
  rewrite Tokenize_Join. revert Htok. generalize (bm25.Tokenize text) as l.
  induction l as [|tok l IH]; intros Htok; [reflexivity|].
  simpl. rewrite (Htok tok) by (left; reflexivity). simpl. f_equal.
  apply IH. intros t Ht. apply Htok. right. exact Ht.
Qed.

(** * Fitting an engine again *)

(** [Fit] does not reset the engine.  Fitting a fitted engine again adds the
    new document frequencies to the old ones, while [N] and the corpus are
    those of the new documents only. *)
Theorem Fit_again_accumulates (k1 b : R) (documents more : list string) (t : string) :
  more <> [] ->
  bm25.docFreqs (bm25.Fit (bm25.Fit (bm25.New k1 b) documents) more) !! t =
    (if decide (doc_frequency t documents + doc_frequency t more = 0)%nat then None
     else Some (doc_frequency t documents + doc_frequency t more)%nat) /\
  bm25.N (bm25.Fit (bm25.Fit (bm25.New k1 b) documents) more) = length more /\
  bm25.corpus (bm25.Fit (bm25.Fit (bm25.New k1 b) documents) more)
    = List.map bm25.Tokenize more.
Proof.
  intros Hne. destruct more as [|m more]; [congruence|].
  split; [|split; [reflexivity | reflexivity]].
  rewrite Fit_docFreqs, docFreqs_lookup, doc_count_Tokenize.
  destruct (Fit_document_frequencies_aux k1 b documents t) as [-> _].
  destruct (decide (doc_frequency t documents = 0)%nat) as [Hz|Hz];
    destruct (decide (doc_frequency t (m :: more) = 0)%nat) as [Hz'|Hz']; simpl.
  - rewrite decide_True by lia. reflexivity.
  - rewrite decide_False by lia. f_equal. lia.
  - rewrite decide_False by lia. f_equal. lia.
  - rewrite decide_False by lia. f_equal. lia.
Qed.

Lemma Fit_again_accumulates_witness :
  bm25.docFreqs (bm25.Fit (bm25.Fit (bm25.New 1.5 0.75) ["rsi momentum"]) ["rsi momentum"])
    !! "rsi" = Some 2%nat /\
  bm25.N (bm25.Fit (bm25.Fit (bm25.New 1.5 0.75) ["rsi momentum"]) ["rsi momentum"]) = 1%nat /\
  bm25.corpus (bm25.Fit (bm25.Fit (bm25.New 1.5 0.75) ["rsi momentum"]) ["rsi momentum"])
    = [["rsi"; "momentum"]].
Proof.
  exact (Fit_again_accumulates 1.5 0.75 ["rsi momentum"] ["rsi momentum"] "rsi"
           ltac:(discriminate)).
Defined.

(** [Fit] on no document after a fit on some sets [N] to 0 and leaves the
    corpus in place: [Score] then makes no result slot and panics, with an
    index out of range, when it writes the score of the first document. *)
Theorem Score_after_empty_refit_panics (k1 b : R) (documents : list string) (query : string) :
  params_ok k1 b ->
  documents <> [] ->
  bm25.N (bm25.Fit (bm25.Fit (bm25.New k1 b) documents) []) = 0%nat /\
  bm25.corpus (bm25.Fit (bm25.Fit (bm25.New k1 b) documents) [])
    = List.map bm25.Tokenize documents /\
  bm25.Score (bm25.Fit (bm25.Fit (bm25.New k1 b) documents) []) query
  = inl IndexOutOfRange.
Proof. apply Score_empty_refit. Qed.

Lemma Score_after_empty_refit_witness :
  bm25.N (bm25.Fit (bm25.Fit (bm25.New 1.5 0.75) ["rsi momentum"]) []) = 0%nat /\
  bm25.corpus (bm25.Fit (bm25.Fit (bm25.New 1.5 0.75) ["rsi momentum"]) [])
    = List.map bm25.Tokenize ["rsi momentum"] /\
  bm25.Score (bm25.Fit (bm25.Fit (bm25.New 1.5 0.75) ["rsi momentum"]) []) "rsi"
  = inl IndexOutOfRange.
Proof.
  apply (Score_after_empty_refit_panics 1.5 0.75 ["rsi momentum"] "rsi").
  - unfold params_ok. lra.
  - discriminate.
Defined.

(** * Further properties of the record store and the projection *)

Section Rows.

Import search.

Lemma fill_row_notin headers record k : forall i (r : row),
  k ∉ headers -> fill_row i headers record r !! k = r !! k.
Proof.
  induction headers as [|h headers IH]; intros i r Hk; simpl; [reflexivity|].
  apply not_elem_of_cons in Hk as [Hne Hk]. rewrite IH by exact Hk.
  destruct (record !! i); [|reflexivity]. apply lookup_insert_ne. congruence.
Qed.

Lemma fill_row_NoDup headers record : forall i (r : row) j k,
  NoDup headers -> headers !! j = Some k ->
  fill_row i headers record r !! k =
  match record !! (i + j)%nat with
  | Some v => Some v
  | None => r !! k
  end.
Proof.
  induction headers as [|h headers IH]; intros i r j k Hnd Hj; [discriminate|].
  apply NoDup_cons in Hnd as [Hh Hnd]. destruct j as [|j]; simpl in *.
  - injection Hj as ->. rewrite fill_row_notin by exact Hh. rewrite Nat.add_0_r.
    destruct (record !! i); [apply lookup_insert_eq | reflexivity].
  - rewrite (IH (S i) _ j k Hnd Hj). replace (S i + j)%nat with (i + S j)%nat by lia.
    destruct (record !! (i + S j)%nat); [reflexivity|].
    destruct (record !! i); [|reflexivity]. apply lookup_insert_ne.
    intros ->. apply Hh. eapply list_elem_of_lookup_2. exact Hj.
Qed.

Lemma fill_row_keys headers record k : forall i (r : row),
  is_Some (fill_row i headers record r !! k) -> k ∈ headers \/ is_Some (r !! k).
Proof.
  induction headers as [|h headers IH]; intros i r H; simpl in *; [right; exact H|].
  apply IH in H as [H|H]; [left; right; exact H|].
  destruct (record !! i); [|right; exact H].
  destruct (decide (h = k)) as [->|Hne]; [left; left|].
  rewrite lookup_insert_ne in H by exact Hne. right; exact H.
Qed.

Lemma project_fold (r : row) cols : forall (acc : row) col,
  fold_left (fun result c =>
               match r !! c with
               | Some val => <[ c := val ]> result
               | None => result
               end) cols acc !! col
  = if decide (col ∈ cols) then (match r !! col with Some v => Some v | None => acc !! col end)
    else acc !! col.
Proof.
  induction cols as [|c cols IH]; intros acc col; simpl; [reflexivity|].
  rewrite IH. destruct (decide (col ∈ cols)) as [Hin|Hin].
  - rewrite decide_True by (right; exact Hin).
    destruct (r !! col) eqn:E; [reflexivity|].
    destruct (r !! c) eqn:Ec; [|reflexivity].
    apply lookup_insert_ne. congruence.
  - destruct (decide (c = col)) as [->|Hne].
    + rewrite decide_True by left.
      destruct (r !! col); [apply lookup_insert_eq | reflexivity].
    + rewrite decide_False by (intros H; apply elem_of_cons in H as [->|H]; tauto).
      destruct (r !! c); [|reflexivity]. apply lookup_insert_ne. exact Hne.
Qed.

Lemma project_lookup_aux config (r : row) col :
  project config r !! col =
  if decide (col ∈ Config.OutputCols config) then r !! col else None.
Proof.
  unfold project. rewrite project_fold, lookup_empty.
  destruct (decide _); [|reflexivity]. destruct (r !! col); reflexivity.
Qed.

Lemma document_parts (r : row) cols : forall acc,
  fold_left (fun parts col =>
               match r !! col with
               | Some val => parts ++ [val]
               | None => parts
               end) cols acc
  = acc ++ omap (fun col => r !! col) cols.
Proof.
  induction cols as [|c cols IH]; intros acc; simpl; [rewrite app_nil_r; reflexivity|].
  rewrite IH. destruct (r !! c); [rewrite <- app_assoc|]; reflexivity.
Qed.

End Rows.

(** [loadCSV] on a file of a header row and at least one more row: one
    record per row after the header, in order; a record has no key that is
    not a header, and, the headers being distinct, it maps the header of
    column [j] to the cell [j] of its row (and has no such key when the row
    is too short). *)
Theorem loadCSV_rows (env : search.Env) (path : string) (headers : list string)
    (rest : list (list string)) :
  search.csv_ReadAll env path = inr (headers :: rest) ->
  rest <> [] ->
  exists data,
    search.loadCSV env path = inr data /\
    length data = length rest /\
    forall i record, rest !! i = Some record ->
      exists r : search.row,
        data !! i = Some r /\
        (forall k, is_Some (r !! k) -> k ∈ headers) /\
        (NoDup headers -> forall j k, headers !! j = Some k -> r !! k = record !! j).
Proof.
  intros Hread Hne. unfold search.loadCSV. rewrite Hread.
  destruct rest as [|row0 rest]; [congruence|]. simpl length. simpl Nat.ltb. cbv iota.
  eexists. split; [reflexivity|]. split; [apply length_map|].
  intros i record Hi. eexists. split.
  - rewrite list_lookup_fmap, Hi. reflexivity.
  - split.
    + intros k Hk. apply fill_row_keys in Hk as [Hk|Hk]; [exact Hk|].
      rewrite lookup_empty in Hk. destruct Hk; discriminate.
    + intros Hnd j k Hj. rewrite (fill_row_NoDup _ _ 0 _ j k Hnd Hj). simpl.
      rewrite lookup_empty. destruct (record !! j); reflexivity.
Qed.

Lemma loadCSV_rows_witness :
  exists data,
    search.loadCSV (example_env insertion_sort) "data/indicators.csv" = inr data /\
    length data = length (tail example_records) /\
    forall i record, tail example_records !! i = Some record ->
      exists r : search.row,
        data !! i = Some r /\
        (forall k, is_Some (r !! k) -> k ∈ ["Keywords"; "Parameters"]) /\
        (NoDup ["Keywords"; "Parameters"] ->
         forall j k, ["Keywords"; "Parameters"] !! j = Some k -> r !! k = record !! j).
Proof.
  apply (loadCSV_rows (example_env insertion_sort) "data/indicators.csv"
           ["Keywords"; "Parameters"] (tail example_records)).
  - reflexivity.
  - discriminate.
Defined.

(** The projection keeps exactly the output columns the row has, with the
    values of the row: a column that is no output column, or that the row
    lacks, is not in the result. *)
Theorem project_lookup (config : search.Config.t) (r : search.row) (col : string) :
  search.project config r !! col =
  if decide (col ∈ search.Config.OutputCols config) then r !! col else None.
Proof. apply project_lookup_aux. Qed.

(** The document of a record has the tokens of the values of its search
    columns, column after column in the order of the schema; a column the
    record lacks adds nothing, and no token spans two columns. *)
Theorem document_tokens (config : search.Config.t) (r : search.row) :
  bm25.Tokenize (search.document config r) =
  concat (List.map bm25.Tokenize
            (omap (fun col => r !! col) (search.Config.SearchCols config))).
Proof.
  unfold search.document. rewrite document_parts. simpl. apply Tokenize_Join.
Qed.

(** Every record a successful [Search] returns has only output columns of
    the resolved domain as keys, and every value is the one the loaded record
    has for that column. *)
Theorem Search_results_are_projections (env : search.Env) (dataDir query domain : string)
    (maxResults : Z) (res : search.Result.t) :
  search.Env_ok env ->
  search.Search env dataDir query domain maxResults = search.Ok res ->
  exists config data,
    search.DomainConfigs !! search.Result.Domain res = Some config /\
    search.Result.File res = search.Config.File config /\
    search.Result.Query res = query /\
    search.loadCSV env (search.filepath_Join env dataDir (search.Config.File config))
      = inr data /\
    forall rec, rec ∈ search.Result.Results res ->
      exists r, r ∈ data /\
        forall col, rec !! col =
          if decide (col ∈ search.Config.OutputCols config) then r !! col else None.
Proof.
  intros [_ Hsort] H.
  destruct (Search_Ok_inv _ _ _ _ _ _ Hsort H)
    as (config & data & scored & Hcfg & Hload & Hmax & Hscore & Hlen & ->).
  exists config, data. simpl.
  split; [exact Hcfg|]. split; [reflexivity|]. split; [reflexivity|]. split; [exact Hload|].
  intros rec Hrec. apply list_elem_of_fmap in Hrec as (hit & -> & Hhit).
  assert (Hin : hit ∈ scored).
  { destruct (accepted_prefix maxResults (search.sort_Slice env scored) 0) as [rest Hrest].
    rewrite <- (proj1 (Hsort scored)), Hrest. apply elem_of_app. left. exact Hhit. }
  assert (Hidx : (bm25.Result.Index hit < length data)%nat).
  { unfold engine_of in Hscore.
    rewrite Score_Fit_New in Hscore by (unfold params_ok; lra).
    injection Hscore as <-.
    apply elem_of_lookup_imap in Hin as (i & doc & -> & Hi). simpl.
    apply lookup_lt_Some in Hi. rewrite !length_map in Hi. exact Hi. }
  apply lookup_lt_is_Some in Hidx as [r Hr].
  exists r. split; [eapply list_elem_of_lookup_2; exact Hr|].
  intros col. unfold hit_row. rewrite Hr. simpl. apply project_lookup_aux.
Qed.

Lemma Search_results_are_projections_witness :
  exists config data,
    search.DomainConfigs !! "indicator" = Some config /\
    "indicators.csv" = search.Config.File config /\
    "momentum" = "momentum" /\
    search.loadCSV (example_env insertion_sort)
      (search.filepath_Join (example_env insertion_sort) "data" (search.Config.File config))
      = inr data /\
    forall rec, rec ∈ [example_first; example_second] ->
      exists r, r ∈ data /\
        forall col, rec !! col =
          if decide (col ∈ search.Config.OutputCols config) then r !! col else None.
Proof.
  exact (Search_results_are_projections (example_env insertion_sort)
           "data" "momentum" "indicator" 2 _
           (example_env_ok _ insertion_sort_ok) example_Search_stable).
Defined.

(** * Further properties of the domain detection *)

Section DetectMore.

Import search.

Lemma best_fold_key (scores : gmap string nat) order : forall best,
  (fst best = "strategy" \/ is_Some (scores !! fst best)) ->
  fst (fold_left (best_step scores) order best) = "strategy" \/
  is_Some (scores !! fst (fold_left (best_step scores) order best)).
Proof.
  induction order as [|B order IH]; intros best H; simpl; [exact H|].
  apply IH. unfold best_step. destruct (scores !! B) as [s|] eqn:E; [|exact H].
  destruct (snd best <? s)%nat; [|exact H]. right. simpl. rewrite E. eauto.
Qed.

Lemma DomainConfigs_domains d : d ∈ domains -> is_Some (DomainConfigs !! d).
Proof.
  unfold domains. intros H.
  repeat (apply elem_of_cons in H as [->|H]; [vm_compute; eauto|]).
  inversion H.
Qed.

Lemma DetectDomain_domain order query : DetectDomain order query ∈ domains.
Proof.
  unfold DetectDomain.
  set (scores := keyword_score (Strings.ToLower query) <$> DomainKeywords).
  destruct (snd (fold_left (best_step scores) order ("strategy", 0%nat)) =? 0)%nat;
    [left|].
  destruct (best_fold_key scores order ("strategy", 0%nat) ltac:(left; reflexivity))
    as [-> | [s Hs]]; [left|].
  unfold scores in Hs. rewrite lookup_fmap in Hs.
  destruct (DomainKeywords !! _) as [kws|] eqn:E; [|discriminate].
  apply (DomainKeywords_key _ kws E).
Qed.

(** From a state below the score of [A], the loop ends on [A] when [A]
    scores strictly more than every other domain. *)
Lemma best_fold_max (scores : gmap string nat) A n order : forall best,
  A ∈ order -> scores !! A = Some n -> (snd best < n)%nat ->
  (forall B s, B ∈ order -> B <> A -> scores !! B = Some s -> (s < n)%nat) ->
  fold_left (best_step scores) order best = (A, n).
Proof.
  induction order as [|B order IH]; intros best HA Hn Hbest Hothers; [inversion HA|].
  simpl. destruct (decide (B = A)) as [->|Hne].
  - unfold best_step at 2. rewrite Hn.
    destruct (snd best <? n)%nat eqn:E; [|apply Nat.ltb_ge in E; lia].
    apply best_fold_zero. intros B s HB Hs. simpl.
    destruct (decide (B = A)) as [->|HneB]; [rewrite Hn in Hs; injection Hs as ->; lia|].
    specialize (Hothers B s (ltac:(right; exact HB)) HneB Hs). lia.
  - apply IH.
    + apply elem_of_cons in HA as [->|HA]; [congruence | exact HA].
    + exact Hn.
    + unfold best_step. destruct (scores !! B) as [s|] eqn:E; [|exact Hbest].
      destruct (snd best <? s)%nat; [|exact Hbest]. simpl.
      apply (Hothers B s ltac:(left) Hne E).
    + intros B' s HB'. apply Hothers. right. exact HB'.
Qed.

End DetectMore.

(** [DetectDomain] always answers one of the five configured domains,
    whatever the query and the order of the iteration, so that [Search] with
    the empty domain never fails with "unknown domain". *)
Theorem auto_detected_domain_is_configured (env : search.Env) (dataDir query : string)
    (maxResults : Z) :
  search.DetectDomain (search.range_scores env) query ∈ search.domains /\
  is_Some (search.DomainConfigs !! search.DetectDomain (search.range_scores env) query) /\
  forall d, search.Search env dataDir query "" maxResults <> search.Err (search.UnknownDomain d).
Proof.
  pose proof (DetectDomain_domain (search.range_scores env) query) as Hd.
  pose proof (DomainConfigs_domains _ Hd) as [config Hcfg].
  split; [exact Hd|]. split; [eauto|].
  intros d. unfold search.Search. simpl String.eqb. cbv iota. rewrite Hcfg.
  destruct (search.loadCSV _ _) as [e|data] eqn:Hload.
  - intros H. injection H as ->. unfold search.loadCSV in Hload.
    destruct (search.csv_ReadAll _ _) as [msg|records]; [discriminate|].
    destruct (length records <? 2)%nat; [discriminate|].
    destruct records; discriminate.
  - destruct (search.rank _ _ _ _); [discriminate|].
    destruct (maxResults <? 0)%Z; [discriminate|].
    destruct (search.top_results _ _ _ _ _); discriminate.
Qed.

(** An explicit domain that is not configured is refused before any file is
    read: the answer does not depend on the record store. *)
Theorem unknown_domain_is_refused (env : search.Env) (dataDir query domain : string)
    (maxResults : Z) :
  domain <> "" ->
  search.DomainConfigs !! domain = None ->
  search.Search env dataDir query domain maxResults = search.Err (search.UnknownDomain domain).
Proof.
  intros Hne Hcfg. unfold search.Search.
  destruct (String.eqb domain "") eqn:E; [apply String.eqb_eq in E; congruence|].
  rewrite Hcfg. reflexivity.
Qed.

Lemma unknown_domain_witness :
  search.Search header_only_env "data" "rsi" "nonexistent" 3
  = search.Err (search.UnknownDomain "nonexistent").
Proof.
  apply (unknown_domain_is_refused header_only_env "data" "rsi" "nonexistent" 3).
  - discriminate.
  - reflexivity.
Defined.

(** When one domain has strictly more key words in the query than every
    other domain, [DetectDomain] answers that domain in every order in which
    [range] may visit the map: the order matters for ties only. *)
Theorem DetectDomain_strict_maximum (order : list string) (query A : string)
    (kwsA : list string) :
  search.range_ok order ->
  search.DomainKeywords !! A = Some kwsA ->
  (0 < search.keyword_score (Strings.ToLower query) kwsA)%nat ->
  (forall B kwsB, search.DomainKeywords !! B = Some kwsB -> B <> A ->
     (search.keyword_score (Strings.ToLower query) kwsB
      < search.keyword_score (Strings.ToLower query) kwsA)%nat) ->
  search.DetectDomain order query = A.
Proof.
  intros Hrange HkA Hpos Hothers. unfold search.DetectDomain.
  rewrite (best_fold_max _ A (search.keyword_score (Strings.ToLower query) kwsA)).
  - simpl. destruct (_ =? 0)%nat eqn:E; [apply Nat.eqb_eq in E; lia | reflexivity].
  - unfold search.range_ok in Hrange. rewrite Hrange.
    apply (DomainKeywords_key A kwsA HkA).
  - rewrite lookup_fmap, HkA. reflexivity.
  - simpl. exact Hpos.
  - intros B s _ Hne Hs. rewrite lookup_fmap in Hs.
    destruct (search.DomainKeywords !! B) as [kwsB|] eqn:E; [|discriminate].
    simpl in Hs. injection Hs as <-. eapply Hothers; eauto.
Qed.

Lemma DetectDomain_strict_maximum_witness :
  search.DetectDomain strategy_first "rsi macd vwap" = "indicator".
Proof.
  refine (DetectDomain_strict_maximum strategy_first "rsi macd vwap" "indicator" _ _ _ _ _).
  - apply Permutation_refl.
  - reflexivity.
  - vm_compute. lia.
  - change (map_Forall
              (fun B kwsB => B <> "indicator" ->
                 (search.keyword_score (Strings.ToLower "rsi macd vwap") kwsB
                  < search.keyword_score (Strings.ToLower "rsi macd vwap")
                      ["indicator"; "ema"; "sma"; "rsi"; "macd"; "bollinger"; "atr";
                       "stochastic"; "adx"; "vwap"; "obv"; "tci"; "signal"; "oscillator";
                       "moving average"])%nat)
              search.DomainKeywords).
    by_decision.
Defined.

(** * Further properties of [Search] *)

Section TopResults.

Import search.

Lemma positive_count_none l :
  (forall r, r ∈ l -> (bm25.Result.Score r <= 0)%R) -> positive_count l = 0%nat.
Proof.
  unfold positive_count. induction l as [|x l IH]; intros H; [reflexivity|].
  rewrite filter_cons, decide_False by (specialize (H x ltac:(left)); lra).
  apply IH. intros r Hr. apply H. right. exact Hr.
Qed.

Lemma sorted_desc_cons_inv x l :
  sorted_desc (x :: l) ->
  sorted_desc l /\ forall y, y ∈ l -> (bm25.Result.Score y <= bm25.Result.Score x)%R.
Proof.
  unfold sorted_desc. intros H. inversion H as [|? ? Hs Hx]; subst. split; [exact Hs|].
  intros y Hy. rewrite Forall_forall in Hx. specialize (Hx y Hy). lra.
Qed.

(** On a sorted slice the loop takes as many entries as there are positive
    scores, up to [maxResults]. *)
Lemma accepted_count m ranked : forall n,
  sorted_desc ranked -> (Z.of_nat n <= m)%Z ->
  Z.of_nat (n + length (accepted m n ranked)) = Z.min m (Z.of_nat (n + positive_count ranked)).
Proof.
  induction ranked as [|r ranked IH]; intros n Hs Hn.
  - change (positive_count []) with 0%nat. simpl. lia.
  - apply sorted_desc_cons_inv in Hs as [Hs Hr].
    destruct (Rle_dec (bm25.Result.Score r) 0) as [Hle|Hpos].
    + rewrite accepted_cons_stop by exact Hle.
      rewrite positive_count_none; [simpl; rewrite Nat.add_0_r; lia|].
      intros y Hy. apply elem_of_cons in Hy as [->|Hy]; [exact Hle|].
      specialize (Hr y Hy). lra.
    + assert (Hpc : positive_count (r :: ranked) = S (positive_count ranked)).
      { unfold positive_count. rewrite filter_cons, decide_True by lra. reflexivity. }
      rewrite Hpc. destruct (Z_lt_le_dec (Z.of_nat n) m) as [Hlt|Hge].
      * rewrite accepted_cons_take by (lra || exact Hlt). simpl length.
        replace (n + S (length (accepted m (S n) ranked)))%nat
          with (S n + length (accepted m (S n) ranked))%nat by lia.
        rewrite IH by (exact Hs || lia). f_equal. lia.
      * rewrite accepted_full by exact Hge. simpl. rewrite Nat.add_0_r. lia.
Qed.

Lemma sorted_desc_app_le l1 l2 :
  sorted_desc (l1 ++ l2) ->
  forall x y, x ∈ l1 -> y ∈ l2 -> (bm25.Result.Score y <= bm25.Result.Score x)%R.
Proof.
  induction l1 as [|a l1 IH]; intros Hs x y Hx Hy; [inversion Hx|].
  simpl in Hs. apply sorted_desc_cons_inv in Hs as [Hs Ha].
  apply elem_of_cons in Hx as [->|Hx].
  - apply Ha. apply elem_of_app. right. exact Hy.
  - apply IH; assumption.
Qed.

End TopResults.

(** Under the contract of the environment a successful [Search] returns the
    top of the ranking: the returned records stand for the leading entries
    of the sorted slice, no document left out scores more than a returned
    one, and the count is the smaller of [maxResults] and the number of
    documents with a positive score. *)
Theorem Search_returns_top_scores (env : search.Env) (dataDir query domain : string)
    (maxResults : Z) (res : search.Result.t) :
  search.Env_ok env ->
  search.Search env dataDir query domain maxResults = search.Ok res ->
  exists config data scored hits rest,
    bm25.Score (engine_of config data) query = inr scored /\
    search.Result.Results res = List.map (hit_row config data) hits /\
    hits ++ rest ≡ₚ scored /\
    (forall h r, h ∈ hits -> r ∈ rest ->
       (bm25.Result.Score r <= bm25.Result.Score h)%R) /\
    Z.of_nat (search.Result.Count res)
      = Z.min maxResults (Z.of_nat (positive_count scored)).
Proof.
  intros [_ Hsort] H.
  destruct (Search_Ok_inv _ _ _ _ _ _ Hsort H)
    as (config & data & scored & Hcfg & Hload & Hmax & Hscore & Hlen & ->).
  destruct (accepted_prefix maxResults (search.sort_Slice env scored) 0) as [rest Hrest].
  destruct (Hsort scored) as [Hperm Hsorted].
  exists config, data, scored, (accepted maxResults 0 (search.sort_Slice env scored)), rest.
  simpl. split; [exact Hscore|]. split; [reflexivity|].
  split; [rewrite <- Hrest; exact Hperm|]. split.
  - apply sorted_desc_app_le. rewrite <- Hrest. exact Hsorted.
  - pose proof (accepted_count maxResults (search.sort_Slice env scored) 0 Hsorted Hmax) as Hc.
    simpl in Hc. rewrite Hc. rewrite (positive_count_perm _ _ Hperm). reflexivity.
Qed.

Lemma Search_returns_top_scores_witness :
  exists config data scored hits rest,
    bm25.Score (engine_of config data) "momentum" = inr scored /\
    [example_first; example_second] = List.map (hit_row config data) hits /\
    hits ++ rest ≡ₚ scored /\
    (forall h r, h ∈ hits -> r ∈ rest ->
       (bm25.Result.Score r <= bm25.Result.Score h)%R) /\
    Z.of_nat 2 = Z.min 2 (Z.of_nat (positive_count scored)).
Proof.
  exact (Search_returns_top_scores (example_env insertion_sort)
           "data" "momentum" "indicator" 2 _
           (example_env_ok _ insertion_sort_ok) example_Search_stable).
Defined.

(** [maxResults] is not clamped: once the records of the resolved domain are
    loaded, [Search] panics for a negative [maxResults] (the capacity of
    [make]) and returns no record for [maxResults = 0]. *)
Theorem Search_nonpositive_maxResults (env : search.Env) (dataDir query domain : string)
    (maxResults : Z) (config : search.Config.t) (data : list search.row) :
  search.Env_ok env ->
  search.DomainConfigs !! resolve env query domain = Some config ->
  search.loadCSV env (search.filepath_Join env dataDir (search.Config.File config))
    = inr data ->
  ((maxResults < 0)%Z ->
   search.Search env dataDir query domain maxResults = search.Panic MakeSliceCap) /\
  (maxResults = 0%Z ->
   search.Search env dataDir query domain maxResults =
   search.Ok (search.Result.mk (resolve env query domain) query
                (search.Config.File config) 0 [])).
Proof.
  intros [_ Hsort] Hcfg Hload.
  rewrite (Search_eval _ _ _ _ _ config data); [|apply Hsort | exact Hcfg | exact Hload].
  split.
  - intros Hneg. apply Z.ltb_lt in Hneg. rewrite Hneg. reflexivity.
  - intros ->. cbv zeta. rewrite accepted_full by (simpl; lia). reflexivity.
Qed.

Lemma Search_nonpositive_maxResults_witness :
  search.Search (example_env insertion_sort) "data" "momentum" "indicator" (-1)
    = search.Panic MakeSliceCap /\
  search.Search (example_env insertion_sort) "data" "momentum" "indicator" 0
    = search.Ok (search.Result.mk "indicator" "momentum" "indicators.csv" 0 []).
Proof.
  split.
  - apply (proj1 (Search_nonpositive_maxResults (example_env insertion_sort)
                    "data" "momentum" "indicator" (-1) indicator_config example_data
                    (example_env_ok _ insertion_sort_ok) (example_config _)
                    (example_load _ _))).
    lia.
  - apply (proj2 (Search_nonpositive_maxResults (example_env insertion_sort)
                    "data" "momentum" "indicator" 0 indicator_config example_data
                    (example_env_ok _ insertion_sort_ok) (example_config _)
                    (example_load _ _))).
    reflexivity.
Defined.

(** * The command-line program *)

Section Truncate.

Lemma length_append (s1 s2 : string) :
  String.length (s1 ++ s2)%string = (String.length s1 + String.length s2)%nat.
Proof.
  induction s1 as [|c s1 IH]; [reflexivity|].
  change (S (String.length (s1 ++ s2)%string) = S (String.length s1 + String.length s2)).
  f_equal. exact IH.
Qed.

Lemma length_substring_0 s : forall n,
  (n <= String.length s)%nat -> String.length (String.substring 0 n s) = n.
Proof.
  induction s as [|c s IH]; intros n Hn; simpl in Hn.
  - destruct n; [reflexivity | lia].
  - destruct n; [reflexivity|]. simpl. f_equal. apply IH. lia.
Qed.

Lemma substring_0_prefix s : forall n,
  String.prefix (String.substring 0 n s) s = true.
Proof.
  induction s as [|c s IH]; intros n; destruct n; simpl; try reflexivity.
  destruct (ascii_dec c c); [apply IH | congruence].
Qed.

End Truncate.

(** [truncate] with a limit that is not negative returns a text of at most
    [max + 3] bytes: the text itself when it has at most [max] bytes, and
    otherwise its first [max] bytes followed by three dots.  With a negative
    limit it panics for every text. *)
Theorem truncate_bounds (s : string) (max : Z) :
  ((0 <= max)%Z ->
   exists r, truncate s max = Some r /\
     (Z.of_nat (String.length r) <= max + 3)%Z /\
     ((Z.of_nat (String.length s) <= max)%Z -> r = s) /\
     ((max < Z.of_nat (String.length s))%Z ->
      exists p, r = (p ++ "...")%string /\ String.prefix p s = true /\
                Z.of_nat (String.length p) = max)) /\
  ((max < 0)%Z -> truncate s max = None).
Proof.
  unfold truncate. split.
  - intros Hmax. destruct (Z.of_nat (String.length s) <=? max)%Z eqn:E.
    + apply Z.leb_le in E. exists s. split; [reflexivity|]. split; [lia|].
      split; [reflexivity | lia].
    + apply Z.leb_gt in E.
      destruct (max <? 0)%Z eqn:E'; [apply Z.ltb_lt in E'; lia|].
      assert (Hlen : String.length (String.substring 0 (Z.to_nat max) s) = Z.to_nat max)
        by (apply length_substring_0; lia).
      eexists. split; [reflexivity|]. split; [|split; [lia|]].
      * rewrite length_append, Hlen. simpl. lia.
      * intros _. eexists. split; [reflexivity|].
        split; [apply substring_0_prefix | rewrite Hlen; lia].
  - intros Hneg. destruct (Z.of_nat (String.length s) <=? max)%Z eqn:E;
      [apply Z.leb_le in E; lia|].
    apply Z.ltb_lt in Hneg. rewrite Hneg. reflexivity.
Qed.
